(** * electron-obs: a shallow embedding of [obsapi.cc]

    The addon exposes seven commands of a native capture-and-streaming
    engine (libobs) to a JavaScript host through N-API.  This file embeds
    the commands, their asynchronous workers and the string handling they
    do, and proves the properties the specification states about them.

    Conventions.
    - A [std::string] is a [string] of 8-bit characters.
    - C integers are [Z] with the conversion to each width written out.
    - A native pointer is an optional handle; [None] is [nullptr].
    - The engine is a black box behind its C API: the model keeps the flag
      read by [obs_initialized], the live objects, the active outputs, and
      a trace of every call that is made.  Pure getters ([obs_initialized],
      [obs_get_version_string], [obs_get_video], [obs_get_audio],
      [obs_encoder_get_name], [obs_output_get_name]) read the state and
      are not traced. *)

From Stdlib Require Import ZArith List Bool Ascii String Lia.
Import ListNotations.

Local Open Scope string_scope.
Local Open Scope Z_scope.

(** ** The C and C++ library functions the source calls *)

Module CLib.

(** *** Integer widths *)

Definition INT_MAX : Z := 2147483647.
Definition INT_MIN : Z := -2147483648.
Definition LONG_MAX : Z := 9223372036854775807.
Definition LONG_MIN : Z := -9223372036854775808.

(** Conversion to [uint32_t] and to [size_t] (64 bits): reduction modulo
    the width. *)
Definition to_uint32 (z : Z) : Z := z mod 2 ^ 32.
Definition to_size_t (z : Z) : Z := z mod 2 ^ 64.

(** Conversion of a [long] to [int] as the target machines do it: keep
    the low 32 bits, read as two's complement. *)
Definition to_int (z : Z) : Z := (z + 2 ^ 31) mod 2 ^ 32 - 2 ^ 31.

(** *** Character classes of <ctype.h> in the C locale *)

Definition code (c : ascii) : Z := Z.of_N (N_of_ascii c).

Definition isdigit (c : ascii) : bool :=
  (48 <=? code c) && (code c <=? 57).

Definition isspace (c : ascii) : bool :=
  (code c =? 32) || ((9 <=? code c) && (code c <=? 13)).

(** *** [atoi]

    [atoi(s)] is [(int) strtol(s, NULL, 10)]: leading white space is
    skipped, one optional sign is read, then the longest run of decimal
    digits; without any digit the value is 0.  [strtol] clamps to the
    range of [long]. *)

Fixpoint skip_space (s : string) : string :=
  match s with
  | String c s' => if isspace c then skip_space s' else s
  | EmptyString => s
  end.

Fixpoint digits (acc : Z) (s : string) : Z :=
  match s with
  | String c s' =>
      if isdigit c then digits (acc * 10 + (code c - 48)) s' else acc
  | EmptyString => acc
  end.

Definition clamp_long (z : Z) : Z :=
  if z <? LONG_MIN then LONG_MIN
  else if LONG_MAX <? z then LONG_MAX
  else z.

Definition strtol (s : string) : Z :=
  match skip_space s with
  | String "-" s' => clamp_long (- digits 0 s')
  | String "+" s' => clamp_long (digits 0 s')
  | s' => clamp_long (digits 0 s')
  end.

Definition atoi (s : string) : Z := to_int (strtol s).

(** *** [std::to_string] on an unsigned value *)

Definition digit_char (d : Z) : ascii :=
  ascii_of_N (Z.to_N (48 + d)).

(** Most significant digit first; [fuel] bounds the number of digits. *)
Fixpoint to_string_aux (fuel : nat) (n : Z) (acc : string) : string :=
  match fuel with
  | O => acc
  | S fuel' =>
      let acc' := String (digit_char (n mod 10)) acc in
      if n <? 10 then acc' else to_string_aux fuel' (n / 10) acc'
  end.

(** Twenty digits are enough for every 64-bit value. *)
Definition to_string (n : Z) : string := to_string_aux 20 n "".

(** *** [std::string] members *)

(** [s.find(c)]: position of the first [c], [None] for [npos]. *)
Fixpoint find_char (c : ascii) (s : string) : option nat :=
  match s with
  | EmptyString => None
  | String d s' =>
      if Ascii.eqb d c then Some O else option_map S (find_char c s')
  end.

(** [s.find(pat)]: position of the first occurrence of [pat]. *)
Fixpoint find (pat s : string) : option nat :=
  if prefix pat s then Some O
  else match s with
       | EmptyString => None
       | String _ s' => option_map S (find pat s')
       end.

(** [s.substr(0, n)]. *)
Fixpoint substr0 (n : nat) (s : string) : string :=
  match n, s with
  | S n', String c s' => String c (substr0 n' s')
  | _, _ => EmptyString
  end.

(** [s.erase(0, n)]. *)
Fixpoint erase0 (n : nat) (s : string) : string :=
  match n, s with
  | S n', String _ s' => erase0 n' s'
  | _, _ => s
  end.

End CLib.

(** ** The engine behind its C API (<obs.h>) *)

(** A live native object is named by a [handle]; a pointer is a handle or
    [nullptr]. *)
Abbreviation handle := nat (only parsing).
Abbreviation ptr := (option nat) (only parsing).
Definition nullptr : ptr := None.

Inductive video_format :=
| VIDEO_FORMAT_NONE
| VIDEO_FORMAT_I420
| VIDEO_FORMAT_NV12
| VIDEO_FORMAT_YVYU
| VIDEO_FORMAT_YUY2
| VIDEO_FORMAT_UYVY
| VIDEO_FORMAT_RGBA
| VIDEO_FORMAT_BGRA
| VIDEO_FORMAT_BGRX
| VIDEO_FORMAT_Y800
| VIDEO_FORMAT_I444.

Inductive speaker_layout :=
| SPEAKERS_UNKNOWN
| SPEAKERS_MONO
| SPEAKERS_STEREO
| SPEAKERS_2POINT1
| SPEAKERS_4POINT0
| SPEAKERS_4POINT1
| SPEAKERS_5POINT1
| SPEAKERS_7POINT1.

Definition speaker_layout_eqb (a b : speaker_layout) : bool :=
  match a, b with
  | SPEAKERS_UNKNOWN, SPEAKERS_UNKNOWN
  | SPEAKERS_MONO, SPEAKERS_MONO
  | SPEAKERS_STEREO, SPEAKERS_STEREO
  | SPEAKERS_2POINT1, SPEAKERS_2POINT1
  | SPEAKERS_4POINT0, SPEAKERS_4POINT0
  | SPEAKERS_4POINT1, SPEAKERS_4POINT1
  | SPEAKERS_5POINT1, SPEAKERS_5POINT1
  | SPEAKERS_7POINT1, SPEAKERS_7POINT1 => true
  | _, _ => false
  end.

(** The members of [struct obs_video_info] that [create_ovi] assigns, in the
    order it assigns them.  The numeric members are [uint32_t]. *)
Record obs_video_info := {
  adapter : Z;
  graphics_module : string;
  output_format : video_format;
  fps_num : Z;
  fps_den : Z;
  base_width : Z;
  base_height : Z;
  output_width : Z;
  output_height : Z
}.

Record obs_audio_info := {
  samples_per_sec : Z;
  speakers : speaker_layout
}.

(** One constructor per engine function that acts on the engine, with the
    arguments of the call. *)
Inductive obs_call :=
| obs_startup_ (locale : string) (module_config_path store : ptr)
| obs_load_all_modules_
| obs_shutdown_
| obs_reset_video_ (ovi : obs_video_info)
| obs_reset_audio_ (oai : obs_audio_info)
| obs_enum_encoders_
| obs_enum_outputs_
| obs_video_encoder_create_ (id name : string) (settings hotkey_data : ptr)
| obs_audio_encoder_create_ (id name : string) (settings : ptr)
    (mixer_idx : Z) (hotkey_data : ptr)
| obs_output_create_ (id name : string) (settings hotkey_data : ptr)
| obs_service_create_ (id name : string) (settings hotkey_data : ptr)
| obs_encoder_set_video_ (encoder video : ptr)
| obs_encoder_set_audio_ (encoder audio : ptr)
| obs_output_set_video_encoder_ (output encoder : ptr)
| obs_output_set_audio_encoder_ (output encoder : ptr) (idx : Z)
| obs_output_set_service_ (output service : ptr)
| obs_output_start_ (output : ptr)
| obs_output_stop_ (output : ptr)
| obs_output_release_ (output : ptr)
| obs_encoder_release_ (encoder : ptr)
| obs_service_release_ (service : ptr).

(** What the model keeps of the engine. *)
Record obs_core := {
  initialized : bool;                 (* what [obs_initialized] reports *)
  startup_succeeds : bool;            (* whether [obs_startup] can bring it up *)
  version_string : string;            (* [obs_get_version_string] *)
  video : ptr;                        (* [obs_get_video]: current video pipeline *)
  audio : ptr;                        (* [obs_get_audio]: current audio pipeline *)
  can_create : string -> bool;        (* can an encoder of this id be made? *)
  next_handle : handle;               (* next fresh handle *)
  encoders : list (handle * string);  (* live encoders and their names *)
  outputs : list (handle * string);   (* live outputs and their names *)
  services : list handle;             (* live services *)
  active : list handle                (* outputs started and not stopped *)
}.

(** ** The host side (<napi.h>) *)

Inductive napi_value :=
| Undefined
| Null
| Boolean (b : bool)
| Number (n : Z)
| JsString (s : string)
| Promise (id : nat).

Definition IsString (v : napi_value) : bool :=
  match v with JsString _ => true | _ => false end.

(** The arguments of one call from JavaScript. *)
Definition CallbackInfo := list napi_value.

Inductive napi_error :=
| TypeError (message : string).

(** How a native function returns to JavaScript: with a value, or with a
    pending exception ([ThrowAsJavaScriptException]). *)
Inductive completion :=
| Return (v : napi_value)
| Throw (e : napi_error).

(** ** Constants of the source *)

Definition DEFAULT_VIDEO_ADAPTER : Z := 0.
Definition DEFAULT_MODULE : string := "libobs-opengl".
Definition DEFAULT_VIDEO_FORMAT : video_format := VIDEO_FORMAT_I420.
Definition DEFAULT_VIDEO_FPS_NUM : Z := 30000.
Definition DEFAULT_VIDEO_FPS_DEN : Z := 1000.
Definition DEFAULT_VIDEO_WIDTH : Z := 640.
Definition DEFAULT_VIDEO_HEIGHT : Z := 360.
Definition DEFAULT_AUDIO_SAMPLES : Z := 44100.
Definition DEFAULT_AUDIO_CHANNELS : speaker_layout := SPEAKERS_STEREO.
Definition NOT_INITIALIZED_STRING : string := "Error: OBS API not initialized!".

(** ** The state of the three worker classes *)

Record AsyncResetVideoWorker := {
  rv_ovi : obs_video_info;
  rv_input : string;
  rv_deferredPromise : nat
}.

Record AsyncResetAudioWorker := {
  ra_oai : obs_audio_info;
  ra_input : string;
  ra_deferredPromise : nat
}.

Record AsyncStartOutputWorker := {
  video_encoder : ptr;
  audio_encoder : ptr;
  output : ptr;
  streaming_service : ptr;
  audio_index : Z;
  so_input : string;
  so_deferredPromise : nat
}.

Record AsyncInitializeWorker := {
  in_result : string;
  in_deferredPromise : nat
}.

(** A unit of work handed to [Napi::AsyncWorker::Queue]. *)
Inductive work :=
| InitializeWork (w : AsyncInitializeWorker)
| ResetVideoWork (w : AsyncResetVideoWorker)
| ResetAudioWork (w : AsyncResetAudioWorker)
| StartOutputWork (w : AsyncStartOutputWorker).

(** ** The world: engine, host queue, and what has been observed *)

Inductive event :=
| Native (c : obs_call)
| Queued (p : nat)
| Resolve (p : nat) (v : napi_value)
| Reject (p : nat) (e : napi_error).

Record world := {
  core : obs_core;
  pending : list work;       (* queued and not yet run, oldest first *)
  next_promise : nat;
  trace : list event         (* oldest first *)
}.

(** *** A state monad over the world *)

Definition M (A : Type) : Type := world -> A * world.

Definition ret {A} (a : A) : M A := fun s => (a, s).

Definition bind {A B} (m : M A) (k : A -> M B) : M B :=
  fun s => let '(a, s') := m s in k a s'.

Declare Scope obs_scope.
Delimit Scope obs_scope with obs.
Notation "x <- m ;; k" := (bind m (fun x => k))
  (at level 61, m at next level, right associativity) : obs_scope.
Notation "m ;; k" := (bind m (fun _ => k))
  (at level 61, right associativity) : obs_scope.
Local Open Scope obs_scope.

Definition get_core : M obs_core := fun s => (core s, s).

Definition set_core (c : obs_core) : M unit :=
  fun s => (tt, {| core := c; pending := pending s;
                   next_promise := next_promise s; trace := trace s |}).

Definition emit (e : event) : M unit :=
  fun s => (tt, {| core := core s; pending := pending s;
                   next_promise := next_promise s;
                   trace := trace s ++ [e] |}).

Definition native (c : obs_call) : M unit := emit (Native c).

(** [Napi::Promise::Deferred::New]. *)
Definition Deferred_New : M nat :=
  fun s => (next_promise s,
            {| core := core s; pending := pending s;
               next_promise := S (next_promise s); trace := trace s |}).

(** [Napi::AsyncWorker::Queue]. *)
Definition Queue (p : nat) (w : work) : M unit :=
  fun s => (tt, {| core := core s; pending := pending s ++ [w];
                   next_promise := next_promise s;
                   trace := trace s ++ [Queued p] |}).

(** ** Engine functions *)

Definition with_initialized (b : bool) (c : obs_core) : obs_core :=
  {| initialized := b; startup_succeeds := startup_succeeds c;
     version_string := version_string c; video := video c; audio := audio c;
     can_create := can_create c; next_handle := next_handle c;
     encoders := encoders c; outputs := outputs c; services := services c;
     active := active c |}.

Definition with_encoders (next : handle) (l : list (handle * string))
    (c : obs_core) : obs_core :=
  {| initialized := initialized c; startup_succeeds := startup_succeeds c;
     version_string := version_string c; video := video c; audio := audio c;
     can_create := can_create c; next_handle := next;
     encoders := l; outputs := outputs c; services := services c;
     active := active c |}.

Definition with_outputs (l : list (handle * string)) (c : obs_core)
    : obs_core :=
  {| initialized := initialized c; startup_succeeds := startup_succeeds c;
     version_string := version_string c; video := video c; audio := audio c;
     can_create := can_create c; next_handle := next_handle c;
     encoders := encoders c; outputs := l; services := services c;
     active := active c |}.

Definition with_services (l : list handle) (c : obs_core) : obs_core :=
  {| initialized := initialized c; startup_succeeds := startup_succeeds c;
     version_string := version_string c; video := video c; audio := audio c;
     can_create := can_create c; next_handle := next_handle c;
     encoders := encoders c; outputs := outputs c; services := l;
     active := active c |}.

Definition with_active (l : list handle) (c : obs_core) : obs_core :=
  {| initialized := initialized c; startup_succeeds := startup_succeeds c;
     version_string := version_string c; video := video c; audio := audio c;
     can_create := can_create c; next_handle := next_handle c;
     encoders := encoders c; outputs := outputs c; services := services c;
     active := l |}.

(** Drop the object named [h] from a list of named objects. *)
Definition drop (h : handle) (l : list (handle * string))
    : list (handle * string) :=
  filter (fun o => negb (Nat.eqb (fst o) h)) l.

Definition drop_handle (h : handle) (l : list handle) : list handle :=
  filter (fun o => negb (Nat.eqb o h)) l.

Definition is_live (h : handle) (l : list (handle * string)) : bool :=
  existsb (fun o => Nat.eqb (fst o) h) l.

Definition obs_initialized : M bool :=
  c <- get_core ;; ret (initialized c).

Definition obs_startup (locale : string) (module_config_path store : ptr)
    : M bool :=
  native (obs_startup_ locale module_config_path store) ;;
  c <- get_core ;;
  if initialized c then ret false
  else if startup_succeeds c then set_core (with_initialized true c) ;; ret true
  else ret false.

Definition obs_load_all_modules : M unit := native obs_load_all_modules_.

Definition obs_get_version_string : M string :=
  c <- get_core ;; ret (version_string c).

(** "Releases all data associated with OBS and terminates the OBS
    context". *)
Definition obs_shutdown : M unit :=
  native obs_shutdown_ ;;
  c <- get_core ;;
  set_core (with_initialized false
              (with_encoders (next_handle c) []
                 (with_outputs [] (with_services [] (with_active [] c))))).

(** The engine's answer to a reset is not modelled: the source discards
    it. *)
Definition obs_reset_video (ovi : obs_video_info) : M unit :=
  native (obs_reset_video_ ovi).

Definition obs_reset_audio (oai : obs_audio_info) : M unit :=
  native (obs_reset_audio_ oai).

Definition obs_get_video : M ptr := c <- get_core ;; ret (video c).
Definition obs_get_audio : M ptr := c <- get_core ;; ret (audio c).

(** Creating an encoder either yields a fresh live handle or [nullptr]. *)
Definition new_encoder (id name : string) : M ptr :=
  c <- get_core ;;
  if can_create c id then
    let h := next_handle c in
    set_core (with_encoders (S h) (encoders c ++ [(h, name)]) c) ;;
    ret (Some h)
  else ret nullptr.

Definition obs_video_encoder_create (id name : string)
    (settings hotkey_data : ptr) : M ptr :=
  native (obs_video_encoder_create_ id name settings hotkey_data) ;;
  new_encoder id name.

Definition obs_audio_encoder_create (id name : string) (settings : ptr)
    (mixer_idx : Z) (hotkey_data : ptr) : M ptr :=
  native (obs_audio_encoder_create_ id name settings mixer_idx hotkey_data) ;;
  new_encoder id name.

Definition obs_encoder_set_video (encoder video : ptr) : M unit :=
  native (obs_encoder_set_video_ encoder video).

Definition obs_encoder_set_audio (encoder audio : ptr) : M unit :=
  native (obs_encoder_set_audio_ encoder audio).

Definition obs_output_set_video_encoder (output encoder : ptr) : M unit :=
  native (obs_output_set_video_encoder_ output encoder).

Definition obs_output_set_audio_encoder (output encoder : ptr) (idx : Z)
    : M unit :=
  native (obs_output_set_audio_encoder_ output encoder idx).

Definition obs_output_set_service (output service : ptr) : M unit :=
  native (obs_output_set_service_ output service).

(** Starting marks a live output active; a null or dead output cannot
    start. *)
Definition obs_output_start (output : ptr) : M bool :=
  native (obs_output_start_ output) ;;
  c <- get_core ;;
  match output with
  | Some h =>
      if is_live h (outputs c)
      then set_core (with_active (active c ++ [h]) c) ;; ret true
      else ret false
  | None => ret false
  end.

Definition obs_output_stop (output : ptr) : M unit :=
  native (obs_output_stop_ output) ;;
  c <- get_core ;;
  match output with
  | Some h => set_core (with_active (drop_handle h (active c)) c)
  | None => ret tt
  end.

Definition obs_output_release (output : ptr) : M unit :=
  native (obs_output_release_ output) ;;
  c <- get_core ;;
  match output with
  | Some h => set_core (with_outputs (drop h (outputs c)) c)
  | None => ret tt
  end.

Definition obs_encoder_release (encoder : ptr) : M unit :=
  native (obs_encoder_release_ encoder) ;;
  c <- get_core ;;
  match encoder with
  | Some h => set_core (with_encoders (next_handle c) (drop h (encoders c)) c)
  | None => ret tt
  end.

Definition obs_service_release (service : ptr) : M unit :=
  native (obs_service_release_ service) ;;
  c <- get_core ;;
  match service with
  | Some h => set_core (with_services (drop_handle h (services c)) c)
  | None => ret tt
  end.

(** Enumeration hands every live object to the callback, oldest first,
    until the callback returns false.  The callback sees the object itself
    (its handle and its name) behind the pointer it is given. *)
Fixpoint enum_objects {A : Type}
    (enum_proc : A -> option (handle * string) -> bool * A)
    (param : A) (l : list (handle * string)) : A :=
  match l with
  | [] => param
  | o :: l' =>
      let '(continue, param') := enum_proc param (Some o) in
      if continue then enum_objects enum_proc param' l' else param'
  end.

Definition obs_enum_encoders {A : Type}
    (enum_proc : A -> option (handle * string) -> bool * A) (param : A)
    : M A :=
  native obs_enum_encoders_ ;;
  c <- get_core ;;
  ret (enum_objects enum_proc param (encoders c)).

Definition obs_enum_outputs {A : Type}
    (enum_proc : A -> option (handle * string) -> bool * A) (param : A)
    : M A :=
  native obs_enum_outputs_ ;;
  c <- get_core ;;
  ret (enum_objects enum_proc param (outputs c)).

Definition obs_encoder_get_name (encoder : handle * string) : string :=
  snd encoder.

Definition obs_output_get_name (output : handle * string) : string :=
  snd output.

(** ** The source: configuration builders *)

Import CLib.

(** [create_ovi]: the parameters are [size_t], the members [uint32_t]. *)
Definition create_ovi (adapter : Z) (graphics_module : string)
    (output_format : video_format) (fps_num fps_den : Z)
    (base_width base_height output_width output_height : Z)
    : obs_video_info :=
  {| adapter := to_uint32 adapter;
     graphics_module := graphics_module;
     output_format := output_format;
     fps_num := to_uint32 fps_num;
     fps_den := to_uint32 fps_den;
     base_width := to_uint32 base_width;
     base_height := to_uint32 base_height;
     output_width := to_uint32 output_width;
     output_height := to_uint32 output_height |}.

Definition create_oai (samples_per_sec : Z) (speakers : speaker_layout)
    : obs_audio_info :=
  {| samples_per_sec := to_uint32 samples_per_sec; speakers := speakers |}.

(** ** The source: the two queries and shutdown *)

(** [c] is the address of the string being built, or null. *)
Definition enumCodecs (c : option string) (encoder : option (handle * string))
    : bool * option string :=
  match c, encoder with
  | Some codecs, Some e => (true, Some (codecs ++ obs_encoder_get_name e))
  | _, _ => (false, c)
  end.

Definition obsGetCodecs (info : CallbackInfo) : M completion :=
  b <- obs_initialized ;;
  if b then
    c <- obs_enum_encoders enumCodecs (Some "") ;;
    match c with
    | Some codecs => ret (Return (JsString codecs))
    | None => ret (Return (JsString ""))
    end
  else ret (Return (JsString NOT_INITIALIZED_STRING)).

Definition enumOutputs (c : option string) (encoder : option (handle * string))
    : bool * option string :=
  match c, encoder with
  | Some codecs, Some e => (true, Some (codecs ++ obs_output_get_name e))
  | _, _ => (false, c)
  end.

Definition obsGetOutputs (info : CallbackInfo) : M completion :=
  b <- obs_initialized ;;
  if b then
    c <- obs_enum_outputs enumOutputs (Some "") ;;
    match c with
    | Some outputs => ret (Return (JsString outputs))
    | None => ret (Return (JsString ""))
    end
  else ret (Return (JsString NOT_INITIALIZED_STRING)).

Definition obsShutdown (info : CallbackInfo) : M completion :=
  b <- obs_initialized ;;
  if b then
    obs_shutdown ;;
    ret (Return (JsString "Success shutting down OBS"))
  else ret (Return (JsString NOT_INITIALIZED_STRING)).

(** [info[0]]: an index past the arguments yields [undefined]. *)
Definition arg (info : CallbackInfo) (i : nat) : napi_value :=
  nth i info Undefined.

(** [v.As<Napi::String>()] converted to [std::string]. *)
Definition As_String (v : napi_value) : string :=
  match v with JsString s => s | _ => "" end.

(** ** The source: [AsyncInitializeWorker] *)

Definition AsyncInitializeWorker_Create (info : CallbackInfo) : M completion :=
  obs_startup "en-US" nullptr nullptr ;;
  b <- obs_initialized ;;
  if negb b then ret (Throw (TypeError NOT_INITIALIZED_STRING))
  else
    obs_load_all_modules ;;
    p <- Deferred_New ;;
    Queue p (InitializeWork {| in_result := ""; in_deferredPromise := p |}) ;;
    ret (Return (Promise p)).

Definition AsyncInitializeWorker_Execute (w : AsyncInitializeWorker)
    : M AsyncInitializeWorker :=
  v <- obs_get_version_string ;;
  ret {| in_result := "v" ++ v; in_deferredPromise := in_deferredPromise w |}.

Definition AsyncInitializeWorker_OnOK (w : AsyncInitializeWorker) : M unit :=
  emit (Resolve (in_deferredPromise w) (JsString (in_result w))).

Definition AsyncInitializeWorker_OnError (e : napi_error)
    (w : AsyncInitializeWorker) : M unit :=
  emit (Reject (in_deferredPromise w) e).

(** ** The source: [AsyncResetVideoWorker] *)

(** The member [ovi] is not initialised by the constructor; the model
    gives it the value [create_ovi] builds from its defaults, which
    [Execute] overwrites before anything reads it. *)
Definition AsyncResetVideoWorker_new (hint : string) : M AsyncResetVideoWorker :=
  p <- Deferred_New ;;
  ret {| rv_ovi := create_ovi DEFAULT_VIDEO_ADAPTER DEFAULT_MODULE
                     DEFAULT_VIDEO_FORMAT DEFAULT_VIDEO_FPS_NUM
                     DEFAULT_VIDEO_FPS_DEN DEFAULT_VIDEO_WIDTH
                     DEFAULT_VIDEO_HEIGHT DEFAULT_VIDEO_WIDTH
                     DEFAULT_VIDEO_HEIGHT;
         rv_input := hint;
         rv_deferredPromise := p |}.

Definition AsyncResetVideoWorker_Create (info : CallbackInfo) : M completion :=
  b <- obs_initialized ;;
  if negb b then ret (Throw (TypeError NOT_INITIALIZED_STRING))
  else
    if negb (Nat.eqb (List.length info) 1) || negb (IsString (arg info 0))
    then ret (Throw (TypeError "Expected a single string argument"))
    else
      let input := As_String (arg info 0) in
      worker <- AsyncResetVideoWorker_new input ;;
      Queue (rv_deferredPromise worker) (ResetVideoWork worker) ;;
      ret (Return (Promise (rv_deferredPromise worker))).

(** The locals [width], [height] and the member [input] as the parsing
    part of [Execute] leaves them. *)
Definition parse_size (input : string) : Z * Z * string :=
  let width := DEFAULT_VIDEO_WIDTH in
  let height := DEFAULT_VIDEO_HEIGHT in
  match find_char "x" input with
  | Some xpos =>
      let w := substr0 xpos input in
      let input := erase0 (xpos + 1) input in
      let h := input in
      let width :=
        if Nat.eqb (String.length w) 0 then width else to_size_t (atoi w) in
      let height :=
        if Nat.eqb (String.length h) 0 then height else to_size_t (atoi h) in
      (width, height, input)
  | None => (width, height, input)
  end.

Definition AsyncResetVideoWorker_Execute (w : AsyncResetVideoWorker)
    : M AsyncResetVideoWorker :=
  let '(width, height, input) := parse_size (rv_input w) in
  let ovi := create_ovi DEFAULT_VIDEO_ADAPTER DEFAULT_MODULE
               DEFAULT_VIDEO_FORMAT DEFAULT_VIDEO_FPS_NUM
               DEFAULT_VIDEO_FPS_DEN width height
               DEFAULT_VIDEO_WIDTH DEFAULT_VIDEO_HEIGHT in
  obs_reset_video ovi ;;
  ret {| rv_ovi := ovi; rv_input := input;
         rv_deferredPromise := rv_deferredPromise w |}.

Definition AsyncResetVideoWorker_OnOK (w : AsyncResetVideoWorker) : M unit :=
  emit (Resolve (rv_deferredPromise w)
          (JsString (to_string (base_width (rv_ovi w)) ++ "x"
                     ++ to_string (base_height (rv_ovi w))))).

Definition AsyncResetVideoWorker_OnError (e : napi_error)
    (w : AsyncResetVideoWorker) : M unit :=
  emit (Reject (rv_deferredPromise w) e).

(** ** The source: [AsyncResetAudioWorker] *)

Definition AsyncResetAudioWorker_new (hint : string) : M AsyncResetAudioWorker :=
  p <- Deferred_New ;;
  ret {| ra_oai := create_oai DEFAULT_AUDIO_SAMPLES DEFAULT_AUDIO_CHANNELS;
         ra_input := hint;
         ra_deferredPromise := p |}.

Definition AsyncResetAudioWorker_Create (info : CallbackInfo) : M completion :=
  b <- obs_initialized ;;
  if negb b then ret (Throw (TypeError NOT_INITIALIZED_STRING))
  else
    if negb (Nat.eqb (List.length info) 1) || negb (IsString (arg info 0))
    then ret (Throw (TypeError "Expected a single string argument"))
    else
      let input := As_String (arg info 0) in
      worker <- AsyncResetAudioWorker_new input ;;
      Queue (ra_deferredPromise worker) (ResetAudioWork worker) ;;
      ret (Return (Promise (ra_deferredPromise worker))).

Definition AsyncResetAudioWorker_Execute (w : AsyncResetAudioWorker)
    : M AsyncResetAudioWorker :=
  let mpos := find "mono" (ra_input w) in
  let stereo := true in
  let stereo := match mpos with Some _ => false | None => stereo end in
  let oai := create_oai DEFAULT_AUDIO_SAMPLES
               (if stereo then SPEAKERS_STEREO else SPEAKERS_MONO) in
  obs_reset_audio oai ;;
  ret {| ra_oai := oai; ra_input := ra_input w;
         ra_deferredPromise := ra_deferredPromise w |}.

Definition AsyncResetAudioWorker_OnOK (w : AsyncResetAudioWorker) : M unit :=
  emit (Resolve (ra_deferredPromise w)
          (JsString (if speaker_layout_eqb (speakers (ra_oai w)) SPEAKERS_STEREO
                     then "stereo" else "mono"))).

Definition AsyncResetAudioWorker_OnError (e : napi_error)
    (w : AsyncResetAudioWorker) : M unit :=
  emit (Reject (ra_deferredPromise w) e).

(** ** The source: [AsyncStartOutputWorker] *)

Definition AsyncStartOutputWorker_new (hint : string)
    : M AsyncStartOutputWorker :=
  p <- Deferred_New ;;
  ret {| video_encoder := nullptr;
         audio_encoder := nullptr;
         output := nullptr;
         streaming_service := nullptr;
         audio_index := 0;
         so_input := hint;
         so_deferredPromise := p |}.

Definition AsyncStartOutputWorker_Create (info : CallbackInfo) : M completion :=
  b <- obs_initialized ;;
  if negb b then ret (Throw (TypeError NOT_INITIALIZED_STRING))
  else
    if negb (Nat.eqb (List.length info) 1) || negb (IsString (arg info 0))
    then ret (Throw (TypeError "Expected a single string argument"))
    else
      let input := As_String (arg info 0) in
      worker <- AsyncStartOutputWorker_new input ;;
      Queue (so_deferredPromise worker) (StartOutputWork worker) ;;
      ret (Return (Promise (so_deferredPromise worker))).

Definition AsyncStartOutputWorker_Execute (w : AsyncStartOutputWorker)
    : M AsyncStartOutputWorker :=
  video_encoder' <- obs_video_encoder_create
                      "com.apple.videotoolbox.videoencoder.h264.gva" ""
                      nullptr nullptr ;;
  audio_encoder' <- obs_audio_encoder_create "adv_stream_aac" ""
                      nullptr 0 nullptr ;;
  v <- obs_get_video ;;
  obs_encoder_set_video video_encoder' v ;;
  a <- obs_get_audio ;;
  obs_encoder_set_audio audio_encoder' a ;;
  obs_output_set_video_encoder (output w) video_encoder' ;;
  obs_output_set_audio_encoder (output w) audio_encoder' (audio_index w) ;;
  obs_output_set_service (output w) (streaming_service w) ;;
  obs_output_start (output w) ;;
  ret {| video_encoder := video_encoder';
         audio_encoder := audio_encoder';
         output := output w;
         streaming_service := streaming_service w;
         audio_index := audio_index w;
         so_input := so_input w;
         so_deferredPromise := so_deferredPromise w |}.

Definition cleanup (w : AsyncStartOutputWorker) : M AsyncStartOutputWorker :=
  output' <-
    match output w with
    | Some _ =>
        obs_output_stop (output w) ;;
        obs_output_release (output w) ;;
        ret nullptr
    | None => ret (output w)
    end ;;
  video_encoder' <-
    match video_encoder w with
    | Some _ => obs_encoder_release (video_encoder w) ;; ret nullptr
    | None => ret (video_encoder w)
    end ;;
  audio_encoder' <-
    match audio_encoder w with
    | Some _ => obs_encoder_release (audio_encoder w) ;; ret nullptr
    | None => ret (audio_encoder w)
    end ;;
  streaming_service' <-
    match streaming_service w with
    | Some _ => obs_service_release (streaming_service w) ;; ret nullptr
    | None => ret (streaming_service w)
    end ;;
  ret {| video_encoder := video_encoder';
         audio_encoder := audio_encoder';
         output := output';
         streaming_service := streaming_service';
         audio_index := audio_index w;
         so_input := so_input w;
         so_deferredPromise := so_deferredPromise w |}.

Definition AsyncStartOutputWorker_OnOK (w : AsyncStartOutputWorker)
    : M AsyncStartOutputWorker :=
  w' <- cleanup w ;;
  emit (Resolve (so_deferredPromise w') (JsString "ok")) ;;
  ret w'.

Definition AsyncStartOutputWorker_OnError (e : napi_error)
    (w : AsyncStartOutputWorker) : M AsyncStartOutputWorker :=
  w' <- cleanup w ;;
  emit (Reject (so_deferredPromise w') e) ;;
  ret w'.

(** ** [Napi::AsyncWorker]: running queued work

    A queued worker runs [Execute] and then, back on the host's thread,
    [OnOK] when no error was set and [OnError] otherwise.  No [Execute] of
    this source sets an error, so a queued worker always completes through
    [OnOK]. *)

Definition run_work (w : work) : M unit :=
  match w with
  | InitializeWork w =>
      w' <- AsyncInitializeWorker_Execute w ;; AsyncInitializeWorker_OnOK w'
  | ResetVideoWork w =>
      w' <- AsyncResetVideoWorker_Execute w ;; AsyncResetVideoWorker_OnOK w'
  | ResetAudioWork w =>
      w' <- AsyncResetAudioWorker_Execute w ;; AsyncResetAudioWorker_OnOK w'
  | StartOutputWork w =>
      w' <- AsyncStartOutputWorker_Execute w ;;
      AsyncStartOutputWorker_OnOK w' ;;
      ret tt
  end.

Fixpoint run_all (ws : list work) : M unit :=
  match ws with
  | [] => ret tt
  | w :: ws' => run_work w ;; run_all ws'
  end.

(** Run everything that is queued, oldest first. *)
Definition run_pending : M unit :=
  fun s =>
    run_all (pending s)
      {| core := core s; pending := [];
         next_promise := next_promise s; trace := trace s |}.

(** ** [Init]: the exported commands *)

Inductive command :=
| initialize
| shutdown
| resetVideo
| resetAudio
| startOutput
| getCodecs
| getOutputs.

Definition Init (c : command) : CallbackInfo -> M completion :=
  match c with
  | initialize => AsyncInitializeWorker_Create
  | shutdown => obsShutdown
  | resetVideo => AsyncResetVideoWorker_Create
  | resetAudio => AsyncResetAudioWorker_Create
  | startOutput => AsyncStartOutputWorker_Create
  | getCodecs => obsGetCodecs
  | getOutputs => obsGetOutputs
  end.

(** One command from JavaScript, followed by the completion of the work
    it queued. *)
Definition call (c : command) (info : CallbackInfo) : M completion :=
  r <- Init c info ;;
  run_pending ;;
  ret r.

(** ** Observations *)

(** The promise [p] was settled with this value. *)
Definition resolved_with (p : nat) (v : napi_value) (s : world) : Prop :=
  In (Resolve p v) (trace s).

(** The native calls in a trace, in order. *)
Fixpoint native_calls (t : list event) : list obs_call :=
  match t with
  | [] => []
  | Native c :: t' => c :: native_calls t'
  | _ :: t' => native_calls t'
  end.

(** A streaming session is running when an output is active. *)
Definition session_running (s : world) : bool :=
  match active (core s) with [] => false | _ => true end.

(** The handles of all live session objects. *)
Definition live_handles (s : world) : list handle :=
  map fst (encoders (core s)) ++ map fst (outputs (core s))
  ++ services (core s).

(** The size a hint is parsed to, as [resetVideo] hands it to the
    engine. *)
Definition ParseSizeHint (text : string) : Z * Z :=
  let '(width, height, _) := parse_size text in
  (to_uint32 width, to_uint32 height).

(** ** Sample worlds *)

(** An engine that has not been started; every encoder id can be
    instantiated. *)
Definition cold_core : obs_core :=
  {| initialized := false; startup_succeeds := true;
     version_string := "27.0.0"; video := Some 1%nat; audio := Some 2%nat;
     can_create := fun _ => true; next_handle := 10%nat;
     encoders := []; outputs := []; services := []; active := [] |}.

Definition cold : world :=
  {| core := cold_core; pending := []; next_promise := 0%nat; trace := [] |}.

(** The same engine after [initialize]. *)
Definition warm : world := snd (call initialize [] cold).

(** An initialized engine in which an output made elsewhere is live and
    active: a session is running. *)
Definition streaming : world :=
  {| core := with_active [7%nat]
               (with_outputs [(7%nat, "rtmp_output")] (core warm));
     pending := []; next_promise := next_promise warm; trace := [] |}.

(** An initialized engine that cannot instantiate any encoder. *)
Definition barren : world :=
  {| core :=
       {| initialized := true; startup_succeeds := true;
          version_string := "27.0.0"; video := Some 1%nat;
          audio := Some 2%nat; can_create := fun _ => false;
          next_handle := 10%nat; encoders := []; outputs := [];
          services := []; active := [] |};
     pending := []; next_promise := 0%nat; trace := [] |}.

(** An engine that cannot be started. *)
Definition broken : world :=
  {| core :=
       {| initialized := false; startup_succeeds := false;
          version_string := "27.0.0"; video := nullptr; audio := nullptr;
          can_create := fun _ => false; next_handle := 0%nat;
          encoders := []; outputs := []; services := []; active := [] |};
     pending := []; next_promise := 0%nat; trace := [] |}.

(** An initialized engine with two live encoders made elsewhere. *)
Definition encoding : world :=
  {| core := with_encoders 10%nat [(3%nat, "x264"); (4%nat, "aac")]
               (core warm);
     pending := []; next_promise := next_promise warm; trace := [] |}.

(** ** The vocabulary of the properties *)

(** [has c s]: the character [c] occurs in [s]. *)
Fixpoint has (c : ascii) (s : string) : bool :=
  match s with
  | EmptyString => false
  | String d s' => Ascii.eqb d c || has c s'
  end.

(** [all p s]: every character of [s] satisfies [p]. *)
Fixpoint all (p : ascii -> bool) (s : string) : bool :=
  match s with
  | EmptyString => true
  | String d s' => p d && all p s'
  end.

(** The head of a string is not a digit (or there is no head). *)
Definition stops (s : string) : bool :=
  match s with
  | String c _ => negb (isdigit c)
  | EmptyString => true
  end.

Definition nondigit (c : ascii) : bool := negb (isdigit c).

(** A side of the hint: empty keeps the default, otherwise [atoi]. *)
Definition side (default : Z) (s : string) : Z :=
  if Nat.eqb (String.length s) 0 then default else to_uint32 (atoi s).

(** A side is numeric when it is a non-empty string of decimal digits. *)
Definition numeric (s : string) : bool :=
  negb (Nat.eqb (String.length s) 0) && all isdigit s.

(** The names of the objects of a list, concatenated in order. *)
Fixpoint names (l : list (handle * string)) : string :=
  match l with
  | [] => ""
  | o :: l' => snd o ++ names l'
  end.

(** The arguments are exactly one string value. *)
Definition one_string (info : CallbackInfo) : Prop :=
  exists str, info = [JsString str].

(** Release through a pointer: nothing happens behind [nullptr]. *)
Definition drop_ptr (p : ptr) (l : list (handle * string)) :=
  match p with Some h => drop h l | None => l end.

Definition drop_handle_ptr (p : ptr) (l : list handle) :=
  match p with Some h => drop_handle h l | None => l end.

(** The release calls the specification expects for the handles a worker
    holds: stop the output, release the output, release the video encoder,
    release the audio encoder, release the service, each only for a handle
    that is not null. *)
Definition release_calls (w : AsyncStartOutputWorker) : list obs_call :=
  (match output w with
   | Some h => [obs_output_stop_ (Some h); obs_output_release_ (Some h)]
   | None => []
   end ++
   match video_encoder w with
   | Some h => [obs_encoder_release_ (Some h)]
   | None => []
   end ++
   match audio_encoder w with
   | Some h => [obs_encoder_release_ (Some h)]
   | None => []
   end ++
   match streaming_service w with
   | Some h => [obs_service_release_ (Some h)]
   | None => []
   end)%list.

Definition holds_nothing (w : AsyncStartOutputWorker) : Prop :=
  video_encoder w = nullptr /\ audio_encoder w = nullptr /\
  output w = nullptr /\ streaming_service w = nullptr.

(** No handle held by [w] is live in [s]. *)
Definition released (w : AsyncStartOutputWorker) (s : world) : Prop :=
  (forall h, output w = Some h ->
     ~ In h (map fst (outputs (core s))) /\ ~ In h (active (core s))) /\
  (forall h, video_encoder w = Some h \/ audio_encoder w = Some h ->
     ~ In h (map fst (encoders (core s)))) /\
  (forall h, streaming_service w = Some h -> ~ In h (services (core s))).

(** Every session object live in [s'] was already live in [s]. *)
Definition nothing_new (s s' : world) : Prop :=
  incl (encoders (core s')) (encoders (core s)) /\
  incl (outputs (core s')) (outputs (core s)) /\
  incl (services (core s')) (services (core s)) /\
  incl (active (core s')) (active (core s)).

(** The promise a queued worker settles. *)
Definition promise_of (w : work) : nat :=
  match w with
  | InitializeWork w => in_deferredPromise w
  | ResetVideoWork w => rv_deferredPromise w
  | ResetAudioWork w => ra_deferredPromise w
  | StartOutputWork w => so_deferredPromise w
  end.

(** Every live encoder was handed out before the next fresh handle. *)
Definition fresh_handles (s : world) : Prop :=
  forall h, In h (map fst (encoders (core s))) ->
            (h < next_handle (core s))%nat.

(** The three commands that take a string. *)
Definition takes_string (c : command) : Prop :=
  c = resetVideo \/ c = resetAudio \/ c = startOutput.

(** * Facts about the library functions *)

Section StringFacts.

Lemma append_assoc (a b c : string) : (a ++ b) ++ c = a ++ (b ++ c).
Proof. induction a as [|x a IH]; simpl; [reflexivity | now rewrite IH]. Qed.

Lemma append_nil_r (a : string) : a ++ "" = a.
Proof. induction a as [|x a IH]; simpl; [reflexivity | now rewrite IH]. Qed.

Lemma length_append (a b : string) :
  String.length (a ++ b) = (String.length a + String.length b)%nat.
Proof. induction a as [|x a IH]; simpl; [reflexivity | now rewrite IH]. Qed.

Lemma all_append p a b : all p (a ++ b) = all p a && all p b.
Proof.
  induction a as [|x a IH]; simpl; [reflexivity|].
  now rewrite IH, andb_assoc.
Qed.

Lemma find_char_none c s : find_char c s = None <-> has c s = false.
Proof.
  induction s as [|d s IH]; simpl; [tauto|].
  destruct (Ascii.eqb d c); simpl; [split; discriminate|].
  destruct (find_char c s); simpl.
  - split; [discriminate|]. intros H. apply IH in H. discriminate.
  - split; [intros _; now apply IH | reflexivity].
Qed.

(** The first [c] of [a ++ c :: b] is at [length a] when [a] has none. *)
Lemma find_char_split c a b :
  has c a = false ->
  find_char c (a ++ String c b) = Some (String.length a).
Proof.
  induction a as [|d a IH]; simpl; intros H.
  - now rewrite Ascii.eqb_refl.
  - apply orb_false_iff in H. destruct H as [H1 H2].
    rewrite H1, (IH H2). reflexivity.
Qed.

Lemma substr0_append a b : substr0 (String.length a) (a ++ b) = a.
Proof.
  induction a as [|d a IH]; simpl.
  - destruct b; reflexivity.
  - now rewrite IH.
Qed.

Lemma erase0_append a c b :
  erase0 (String.length a + 1) (a ++ String c b) = b.
Proof.
  induction a as [|d a IH]; simpl; [reflexivity | exact IH].
Qed.

Lemma prefix_iff p s : prefix p s = true <-> exists post, s = p ++ post.
Proof.
  revert s. induction p as [|a p IH]; intros s.
  - destruct s; simpl; (split; [intros _; eexists; reflexivity | reflexivity]).
  - destruct s as [|b s]; simpl.
    + split; [discriminate | intros [post H]; discriminate].
    + destruct (ascii_dec a b) as [->|N].
      * rewrite IH. split; intros [post H]; exists post.
        -- now rewrite H.
        -- now injection H.
      * split; [discriminate|]. intros [post H]. injection H as H1 H2.
        now subst.
Qed.

(** [find] answers a position exactly when the pattern occurs in the
    string. *)
Lemma find_some_iff pat s :
  find pat s <> None <-> exists pre post, s = pre ++ pat ++ post.
Proof.
  induction s as [|d s IH].
  - cbn [find]. destruct (prefix pat "") eqn:P.
    + split; [intros _ | easy].
      apply prefix_iff in P. destruct P as [post P]. now exists "", post.
    + split; [congruence|]. intros [pre [post H]].
      destruct pre; simpl in H.
      * assert (prefix pat "" = true) by (apply prefix_iff; now exists post).
        congruence.
      * discriminate.
  - cbn [find]. destruct (prefix pat (String d s)) eqn:P.
    + split; [intros _ | easy].
      apply prefix_iff in P. destruct P as [post P]. now exists "", post.
    + destruct (find pat s) eqn:F; simpl.
      * split; [intros _ | easy].
        destruct IH as [IH _]. destruct IH as [pre [post H]]; [discriminate|].
        exists (String d pre), post. simpl. now rewrite H.
      * split; [congruence|]. intros [pre [post H]].
        destruct pre as [|x pre]; simpl in H.
        -- assert (prefix pat (String d s) = true)
             by (apply prefix_iff; now exists post).
           congruence.
        -- injection H as _ H. destruct IH as [_ IH].
           apply IH. now exists pre, post.
Qed.

End StringFacts.

Section AtoiFacts.

Lemma strtol_unfold s :
  strtol s =
  match skip_space s with
  | String c s' =>
      if Ascii.eqb c "-" then clamp_long (- digits 0 s')
      else if Ascii.eqb c "+" then clamp_long (digits 0 s')
      else clamp_long (digits 0 (String c s'))
  | EmptyString => clamp_long (digits 0 "")
  end.
Proof.
  unfold strtol. destruct (skip_space s) as [|c s']; [reflexivity|].
  destruct c as [[] [] [] [] [] [] [] []]; reflexivity.
Qed.

Lemma isdigit_range c : isdigit c = true <-> 48 <= code c <= 57.
Proof.
  unfold isdigit. rewrite andb_true_iff, !Z.leb_le. tauto.
Qed.

Lemma isdigit_not_space c : isdigit c = true -> isspace c = false.
Proof.
  rewrite isdigit_range. unfold isspace. intros H.
  destruct (Z.eqb_spec (code c) 32); [lia|].
  destruct (Z.leb_spec 9 (code c)); destruct (Z.leb_spec (code c) 13);
    simpl; try reflexivity; lia.
Qed.

Lemma isdigit_not_sign c :
  isdigit c = true -> Ascii.eqb c "-" = false /\ Ascii.eqb c "+" = false.
Proof.
  intros H. split.
  - destruct (Ascii.eqb_spec c "-"); [subst; discriminate | reflexivity].
  - destruct (Ascii.eqb_spec c "+"); [subst; discriminate | reflexivity].
Qed.

Lemma isdigit_not_x c : isdigit c = true -> Ascii.eqb c "x" = false.
Proof.
  intros H. destruct (Ascii.eqb_spec c "x"); [subst; discriminate | reflexivity].
Qed.

Lemma digit_char_spec d :
  0 <= d <= 9 ->
  isdigit (digit_char d) = true /\ code (digit_char d) - 48 = d.
Proof.
  intros H.
  assert (E : d = 0 \/ d = 1 \/ d = 2 \/ d = 3 \/ d = 4 \/ d = 5 \/ d = 6
              \/ d = 7 \/ d = 8 \/ d = 9) by lia.
  repeat (destruct E as [E|E]; [subst d; split; reflexivity|]).
  subst d; split; reflexivity.
Qed.

Lemma digits_stops a s : stops s = true -> digits a s = a.
Proof.
  destruct s as [|c s]; simpl; [reflexivity|].
  now destruct (isdigit c).
Qed.

(** What [to_string] writes is a non-empty run of digits that reads back
    as the number. *)
Lemma to_string_aux_spec fuel : forall n acc,
  fuel <> O -> 0 <= n < 10 ^ Z.of_nat fuel ->
  exists ds,
    to_string_aux fuel n acc = ds ++ acc /\ ds <> "" /\
    all isdigit ds = true /\
    forall a rest,
      digits a (ds ++ rest)
      = digits (a * 10 ^ Z.of_nat (String.length ds) + n) rest.
Proof.
  induction fuel as [|fuel IH]; intros n acc NZ Hn; [congruence|].
  cbn [to_string_aux].
  assert (Hm : 0 <= n mod 10 <= 9) by (pose proof (Z.mod_pos_bound n 10); lia).
  destruct (digit_char_spec _ Hm) as [Hd Hc].
  destruct (Z.ltb_spec n 10) as [Hlt|Hge].
  - exists (String (digit_char (n mod 10)) "").
    repeat split; [discriminate | simpl; now rewrite Hd |].
    intros a rest. simpl. rewrite Hd, Hc.
    rewrite Z.mod_small by lia. f_equal; lia.
  - assert (fuel <> O).
    { intros ->. simpl in Hn. lia. }
    rewrite Nat2Z.inj_succ, Z.pow_succ_r in Hn by lia.
    assert (Hq : 0 <= n / 10 < 10 ^ Z.of_nat fuel).
    { split; [apply Z.div_pos; lia | apply Z.div_lt_upper_bound; lia]. }
    destruct (IH (n / 10) (String (digit_char (n mod 10)) acc) H Hq)
      as [ds [E [_ [Hall Hdig]]]].
    exists (ds ++ String (digit_char (n mod 10)) "").
    repeat split.
    + rewrite E, append_assoc. reflexivity.
    + destruct ds; discriminate.
    + rewrite all_append, Hall. simpl. now rewrite Hd.
    + intros a rest. rewrite append_assoc, Hdig. simpl. rewrite Hd, Hc.
      rewrite length_append. simpl String.length.
      replace (Z.of_nat (String.length ds + 1))
        with (Z.succ (Z.of_nat (String.length ds))) by lia.
      rewrite Z.pow_succ_r by lia.
      f_equal. pose proof (Z.div_mod n 10). lia.
Qed.

Lemma to_string_spec n :
  0 <= n < 2 ^ 64 ->
  to_string n <> "" /\ all isdigit (to_string n) = true /\
  forall a rest,
    digits a (to_string n ++ rest)
    = digits (a * 10 ^ Z.of_nat (String.length (to_string n)) + n) rest.
Proof.
  intros H. unfold to_string.
  destruct (to_string_aux_spec 20 n "") as [ds [E [NE [Hall Hdig]]]];
    [discriminate | simpl; lia |].
  rewrite E, append_nil_r. auto.
Qed.

Lemma all_digit_no_x s : all isdigit s = true -> has "x" s = false.
Proof.
  induction s as [|c s IH]; simpl; [reflexivity|].
  intros H. apply andb_true_iff in H. destruct H as [H1 H2].
  now rewrite (isdigit_not_x _ H1), (IH H2).
Qed.

Lemma to_int_small n : INT_MIN <= n <= INT_MAX -> to_int n = n.
Proof.
  unfold INT_MIN, INT_MAX, to_int. intros H.
  rewrite Z.mod_small; lia.
Qed.

Lemma clamp_long_small n : LONG_MIN <= n <= LONG_MAX -> clamp_long n = n.
Proof.
  unfold clamp_long. intros H.
  destruct (Z.ltb_spec n LONG_MIN); [lia|].
  destruct (Z.ltb_spec LONG_MAX n); [lia | reflexivity].
Qed.

(** [atoi] reads back what [to_string] wrote, whatever non-digit
    follows. *)
Lemma atoi_to_string n rest :
  0 <= n <= INT_MAX -> stops rest = true ->
  atoi (to_string n ++ rest) = n.
Proof.
  intros Hn Hr. unfold INT_MAX in Hn.
  destruct (to_string_spec n) as [NE [Hall Hdig]]; [lia|].
  unfold atoi. rewrite strtol_unfold.
  destruct (to_string n) as [|c ds] eqn:E; [congruence|].
  cbn [all] in Hall. apply andb_true_iff in Hall. destruct Hall as [Hc _].
  cbn [append skip_space]. rewrite (isdigit_not_space _ Hc).
  destruct (isdigit_not_sign _ Hc) as [-> ->].
  change (String c (ds ++ rest)) with (String c ds ++ rest).
  rewrite Hdig, (digits_stops _ _ Hr). simpl Z.mul. simpl Z.add.
  rewrite clamp_long_small by (unfold LONG_MIN, LONG_MAX; lia).
  apply to_int_small. unfold INT_MIN, INT_MAX. lia.
Qed.

Lemma all_nondigit_skip s :
  all nondigit s = true -> all nondigit (skip_space s) = true.
Proof.
  induction s as [|c s IH]; simpl; [reflexivity|].
  intros H. destruct (isspace c); [|exact H].
  apply andb_true_iff in H. now apply IH.
Qed.

Lemma all_nondigit_stops s : all nondigit s = true -> stops s = true.
Proof.
  destruct s as [|c s]; simpl; [reflexivity|].
  intros H. now apply andb_true_iff in H.
Qed.

(** Without any digit to read, [atoi] answers 0. *)
Lemma atoi_no_digit s : all nondigit s = true -> atoi s = 0.
Proof.
  intros H. apply all_nondigit_skip in H.
  unfold atoi. rewrite strtol_unfold.
  destruct (skip_space s) as [|c s']; [reflexivity|].
  pose proof (all_nondigit_stops _ H) as Hs.
  cbn [all] in H. apply andb_true_iff in H. destruct H as [_ H'].
  apply all_nondigit_stops in H'.
  destruct (Ascii.eqb c "-"); [|destruct (Ascii.eqb c "+")];
    rewrite digits_stops by assumption; reflexivity.
Qed.

End AtoiFacts.

(** * The size hint of [resetVideo] *)

Section SizeHint.

Lemma to_uint32_size_t z : to_uint32 (to_size_t z) = to_uint32 z.
Proof.
  unfold to_uint32, to_size_t. apply Z.mod_mod_divide.
  exists (2 ^ 32). reflexivity.
Qed.

Lemma to_uint32_small z : 0 <= z <= INT_MAX -> to_uint32 z = z.
Proof.
  unfold INT_MAX, to_uint32. intros H. apply Z.mod_small. lia.
Qed.

(** The hint splits at its first ['x']. *)
Lemma ParseSizeHint_split a b :
  has "x" a = false ->
  ParseSizeHint (a ++ String "x" b)
  = (side DEFAULT_VIDEO_WIDTH a, side DEFAULT_VIDEO_HEIGHT b).
Proof.
  intros H. unfold ParseSizeHint, parse_size, side.
  rewrite (find_char_split _ _ _ H), substr0_append, erase0_append.
  destruct (Nat.eqb (String.length a) 0), (Nat.eqb (String.length b) 0);
    rewrite ?to_uint32_size_t; reflexivity.
Qed.

Lemma ParseSizeHint_no_x text :
  has "x" text = false ->
  ParseSizeHint text = (DEFAULT_VIDEO_WIDTH, DEFAULT_VIDEO_HEIGHT).
Proof.
  intros H. apply find_char_none in H.
  unfold ParseSizeHint, parse_size. rewrite H. reflexivity.
Qed.

Lemma length_zero_iff s : Nat.eqb (String.length s) 0 = true <-> s = "".
Proof. destruct s; simpl; split; congruence. Qed.

Lemma side_empty d : side d "" = d.
Proof. reflexivity. Qed.

Lemma side_nonempty d s : s <> "" -> side d s = to_uint32 (atoi s).
Proof.
  intros H. unfold side.
  destruct (Nat.eqb (String.length s) 0) eqn:E; [|reflexivity].
  apply length_zero_iff in E. congruence.
Qed.

Lemma side_to_string d n rest :
  0 <= n <= INT_MAX -> stops rest = true ->
  side d (to_string n ++ rest) = n.
Proof.
  intros Hn Hr. rewrite side_nonempty.
  - rewrite atoi_to_string by assumption. now apply to_uint32_small.
  - destruct (to_string_spec n) as [NE _]; [unfold INT_MAX in Hn; lia|].
    destruct (to_string n); [congruence | discriminate].
Qed.

Lemma side_no_digit d s :
  s <> "" -> all nondigit s = true -> side d s = 0.
Proof.
  intros NE H. rewrite side_nonempty by assumption.
  now rewrite atoi_no_digit.
Qed.

Lemma has_append c a b : has c (a ++ b) = has c a || has c b.
Proof.
  induction a as [|x a IH]; simpl; [reflexivity|].
  now rewrite IH, orb_assoc.
Qed.

Lemma to_string_no_x n : 0 <= n <= INT_MAX -> has "x" (to_string n) = false.
Proof.
  intros H. apply all_digit_no_x.
  destruct (to_string_spec n) as [_ [A _]]; [unfold INT_MAX in H; lia|].
  exact A.
Qed.

End SizeHint.

(** C5, as the specification words it, fails on its last clause: a side
    that is not numeric does not always parse to 0.  The width side
    ["12abc"] is not a number, and [atoi] reads its leading digits. *)
Lemma size_hint_leading_digits_are_read :
  numeric "12abc" = false /\
  ParseSizeHint "12abcx720" = (12, 720) /\
  ~ (forall a b : string,
       has "x" a = false -> a <> "" -> numeric a = false ->
       fst (ParseSizeHint (a ++ String "x" b)) = 0).
Proof.
  split; [reflexivity|]. split; [reflexivity|].
  intros H. specialize (H "12abc" "720" eq_refl).
  assert (E : fst (ParseSizeHint ("12abc" ++ String "x" "720")) = 12)
    by reflexivity.
  rewrite H in E; [discriminate | discriminate | reflexivity].
Qed.

(** C5 (amended): size-hint parsing.  The hint is split at its first
    ['x'].
    - ["<w>x<h>"] with both sides the decimal writing of numbers in the
      range of [int] yields [(w, h)];
    - an empty side leaves the default of that side (640 wide, 360 high);
    - a hint without ['x'] yields [(640, 360)];
    - a non-empty side without any decimal digit parses to 0 on that side;
    - a side that begins with the decimal writing of a number and goes on
      with something that is not a digit parses to that number. *)
Theorem size_hint_parsing :
  (forall w h, 0 <= w <= INT_MAX -> 0 <= h <= INT_MAX ->
     ParseSizeHint (to_string w ++ String "x" (to_string h)) = (w, h)) /\
  (forall b, fst (ParseSizeHint (String "x" b)) = 640) /\
  (forall a, has "x" a = false ->
     snd (ParseSizeHint (a ++ String "x" "")) = 360) /\
  (forall text, has "x" text = false -> ParseSizeHint text = (640, 360)) /\
  (forall a b, has "x" a = false -> a <> "" -> all nondigit a = true ->
     fst (ParseSizeHint (a ++ String "x" b)) = 0) /\
  (forall a b, has "x" a = false -> b <> "" -> all nondigit b = true ->
     snd (ParseSizeHint (a ++ String "x" b)) = 0) /\
  (forall n rest b, 0 <= n <= INT_MAX -> stops rest = true ->
     has "x" rest = false ->
     fst (ParseSizeHint ((to_string n ++ rest) ++ String "x" b)) = n) /\
  (forall a n rest, has "x" a = false -> 0 <= n <= INT_MAX ->
     stops rest = true ->
     snd (ParseSizeHint (a ++ String "x" (to_string n ++ rest))) = n).
Proof.
  split; [|split; [|split; [|split; [|split; [|split; [|split]]]]]].
  - intros w h Hw Hh.
    rewrite ParseSizeHint_split by now apply to_string_no_x.
    rewrite <- (append_nil_r (to_string w)), <- (append_nil_r (to_string h)).
    now rewrite !side_to_string.
  - intros b. pose proof (ParseSizeHint_split "" b eq_refl) as E.
    cbn [append] in E. now rewrite E.
  - intros a H. now rewrite (ParseSizeHint_split a "" H).
  - intros text H. now apply ParseSizeHint_no_x.
  - intros a b H NE A. rewrite (ParseSizeHint_split a b H). simpl.
    now apply side_no_digit.
  - intros a b H NE A. rewrite (ParseSizeHint_split a b H). simpl.
    now apply side_no_digit.
  - intros n rest b Hn Hr Hx. rewrite ParseSizeHint_split.
    + simpl. now apply side_to_string.
    + rewrite has_append, Hx, (to_string_no_x n Hn). reflexivity.
  - intros a n rest H Hn Hr. rewrite (ParseSizeHint_split a _ H). simpl.
    now apply side_to_string.
Qed.

Lemma size_hint_parsing_witness :
  ParseSizeHint (to_string 1280 ++ String "x" (to_string 720)) = (1280, 720)
  /\ snd (ParseSizeHint ("1280" ++ String "x" "")) = 360
  /\ ParseSizeHint "garbage" = (640, 360)
  /\ fst (ParseSizeHint ("wide" ++ String "x" "720")) = 0
  /\ snd (ParseSizeHint ("1280" ++ String "x" "tall")) = 0
  /\ fst (ParseSizeHint ((to_string 12 ++ "abc") ++ String "x" "720")) = 12
  /\ snd (ParseSizeHint ("1" ++ String "x" (to_string 2 ++ "x3"))) = 2.
Proof.
  destruct size_hint_parsing as [P1 [_ [P3 [P4 [P5 [P6 [P7 P8]]]]]]].
  split; [apply P1; unfold INT_MAX; lia|].
  split; [apply P3; reflexivity|].
  split; [apply P4; reflexivity|].
  split; [apply P5; [reflexivity | discriminate | reflexivity]|].
  split; [apply P6; [reflexivity | discriminate | reflexivity]|].
  split; [apply P7; [unfold INT_MAX; lia | reflexivity | reflexivity]|].
  apply P8; [reflexivity | unfold INT_MAX; lia | reflexivity].
Defined.

(** * The workers, step by step *)

(** Unfold the monad and the engine functions down to functions on the
    world. *)
Ltac unfold_engine :=
  unfold obs_initialized, obs_startup, obs_load_all_modules,
    obs_get_version_string, obs_shutdown, obs_reset_video, obs_reset_audio,
    obs_get_video, obs_get_audio, obs_video_encoder_create,
    obs_audio_encoder_create, new_encoder, obs_encoder_set_video,
    obs_encoder_set_audio, obs_output_set_video_encoder,
    obs_output_set_audio_encoder, obs_output_set_service, obs_output_start,
    obs_output_stop, obs_output_release, obs_encoder_release,
    obs_service_release, obs_enum_encoders, obs_enum_outputs,
    Deferred_New, Queue, native, emit, get_core, set_core, bind, ret.

(** C10: [resetVideo] takes only the base width and height from the hint.
    In the configuration it hands to the engine the adapter, the graphics
    module, the pixel format, the frame rate and the output (scaled) size
    are the compile-time defaults, the output size being 640x360, whatever
    the hint; the base size is what the hint parses to. *)
Theorem resetVideo_sets_only_base_size :
  forall (w : AsyncResetVideoWorker) (s : world),
    let r := AsyncResetVideoWorker_Execute w s in
    let ovi := rv_ovi (fst r) in
    adapter ovi = 0 /\
    graphics_module ovi = "libobs-opengl" /\
    output_format ovi = VIDEO_FORMAT_I420 /\
    fps_num ovi = 30000 /\
    fps_den ovi = 1000 /\
    output_width ovi = 640 /\
    output_height ovi = 360 /\
    (base_width ovi, base_height ovi) = ParseSizeHint (rv_input w) /\
    trace (snd r) = (trace s ++ [Native (obs_reset_video_ ovi)])%list /\
    core (snd r) = core s.
Proof.
  intros w s. unfold AsyncResetVideoWorker_Execute, ParseSizeHint.
  destruct (parse_size (rv_input w)) as [[width height] input].
  unfold_engine. simpl. repeat split; reflexivity.
Qed.

(** C6: [resetAudio] selects mono exactly when ["mono"] occurs somewhere
    in the hint, and stereo for every other hint, the empty one included;
    the layout is handed to the engine and the promise resolves with the
    name of that layout. *)
Theorem channel_hint_parsing :
  forall (w : AsyncResetAudioWorker) (s : world),
    let r := AsyncResetAudioWorker_Execute w s in
    let oai := ra_oai (fst r) in
    let s' := snd (AsyncResetAudioWorker_OnOK (fst r) (snd r)) in
    (speakers oai = SPEAKERS_MONO <->
       exists pre post, ra_input w = pre ++ "mono" ++ post) /\
    (speakers oai <> SPEAKERS_MONO -> speakers oai = SPEAKERS_STEREO) /\
    (ra_input w = "" -> speakers oai = SPEAKERS_STEREO) /\
    (exists name,
       trace s' = (trace s ++ [Native (obs_reset_audio_ oai);
                               Resolve (ra_deferredPromise w) (JsString name)])%list
       /\ (speakers oai = SPEAKERS_MONO -> name = "mono")
       /\ (speakers oai = SPEAKERS_STEREO -> name = "stereo")).
Proof.
  intros w s. unfold AsyncResetAudioWorker_Execute, AsyncResetAudioWorker_OnOK.
  pose proof (find_some_iff "mono" (ra_input w)) as F.
  unfold_engine. simpl.
  destruct (find "mono" (ra_input w)) as [pos|] eqn:E; simpl.
  - split; [|split; [|split]].
    + split; [intros _; apply F; discriminate | intros _; reflexivity].
    + congruence.
    + intros H. rewrite H in E. discriminate.
    + exists "mono". rewrite <- app_assoc. simpl.
      split; [reflexivity|]. split; [reflexivity | discriminate].
  - split; [|split; [|split]].
    + split; [discriminate | intros H; apply F in H; congruence].
    + reflexivity.
    + reflexivity.
    + exists "stereo". rewrite <- app_assoc. simpl.
      split; [reflexivity|]. split; [discriminate | reflexivity].
Qed.

Lemma channel_hint_parsing_witness :
  let w := {| ra_oai := create_oai DEFAULT_AUDIO_SAMPLES DEFAULT_AUDIO_CHANNELS;
              ra_input := ""; ra_deferredPromise := 0%nat |} in
  speakers (ra_oai (fst (AsyncResetAudioWorker_Execute w cold)))
  = SPEAKERS_STEREO.
Proof.
  intros w.
  destruct (channel_hint_parsing w cold) as [_ [_ [H _]]].
  apply H. reflexivity.
Defined.

(** * The synchronous commands and the guards of [Create] *)

Lemma enum_codecs l : forall acc,
  enum_objects enumCodecs (Some acc) l = Some (acc ++ names l).
Proof.
  induction l as [|o l IH]; intros acc; simpl.
  - now rewrite append_nil_r.
  - unfold obs_encoder_get_name. now rewrite IH, append_assoc.
Qed.

Lemma enum_outputs l : forall acc,
  enum_objects enumOutputs (Some acc) l = Some (acc ++ names l).
Proof.
  induction l as [|o l IH]; intros acc; simpl.
  - now rewrite append_nil_r.
  - unfold obs_output_get_name. now rewrite IH, append_assoc.
Qed.

(** C7: [getCodecs] and [getOutputs] on an engine that is not initialized
    return the string "Error: OBS API not initialized!" as an ordinary
    result and leave the world as it was; on an initialized engine they
    return the names of the encoders, respectively outputs, the engine
    enumerates, concatenated, which is the empty string when there are
    none.  Neither ever throws. *)
Theorem queries_return_sentinel_or_names :
  forall (info : CallbackInfo) (s : world),
    (initialized (core s) = false ->
       obsGetCodecs info s
       = (Return (JsString "Error: OBS API not initialized!"), s) /\
       obsGetOutputs info s
       = (Return (JsString "Error: OBS API not initialized!"), s)) /\
    (initialized (core s) = true ->
       fst (obsGetCodecs info s)
       = Return (JsString (names (encoders (core s)))) /\
       fst (obsGetOutputs info s)
       = Return (JsString (names (outputs (core s))))) /\
    (initialized (core s) = true -> encoders (core s) = [] ->
       fst (obsGetCodecs info s) = Return (JsString "")) /\
    (initialized (core s) = true -> outputs (core s) = [] ->
       fst (obsGetOutputs info s) = Return (JsString "")) /\
    (forall e, fst (obsGetCodecs info s) <> Throw e) /\
    (forall e, fst (obsGetOutputs info s) <> Throw e).
Proof.
  intros info s. unfold obsGetCodecs, obsGetOutputs. unfold_engine.
  destruct s as [c q n t]. simpl.
  destruct (initialized c); simpl.
  - rewrite enum_codecs, enum_outputs. simpl.
    split; [discriminate|]. split; [intros _; split; reflexivity|].
    split; [intros _ E; now rewrite E|].
    split; [intros _ E; now rewrite E|].
    split; discriminate.
  - split; [intros _; split; reflexivity|].
    split; [discriminate|]. split; [discriminate|]. split; [discriminate|].
    split; discriminate.
Qed.

Lemma queries_return_sentinel_or_names_witness :
  obsGetCodecs [] cold
  = (Return (JsString "Error: OBS API not initialized!"), cold) /\
  fst (obsGetOutputs [] streaming) = Return (JsString "rtmp_output") /\
  fst (obsGetCodecs [] warm) = Return (JsString "").
Proof.
  split; [|split].
  - apply (queries_return_sentinel_or_names [] cold). reflexivity.
  - apply (queries_return_sentinel_or_names [] streaming). reflexivity.
  - apply (queries_return_sentinel_or_names [] warm); reflexivity.
Defined.

(** C3, as the specification words it, fails for [shutdown]: on an engine
    that is not initialized it does not fail, it returns the sentinel
    string as its result. *)
Lemma shutdown_uninitialized_returns_normally :
  initialized (core cold) = false /\
  Init shutdown [] cold
  = (Return (JsString "Error: OBS API not initialized!"), cold) /\
  fst (Init shutdown [] cold)
  <> Throw (TypeError "Error: OBS API not initialized!").
Proof.
  split; [reflexivity|]. split; [reflexivity | discriminate].
Qed.

(** C3 (amended): on an engine that is not initialized, [resetVideo],
    [resetAudio] and [startOutput] throw a [TypeError] carrying the
    not-initialized message, and [shutdown] returns that message as an
    ordinary string without throwing; in all four cases the world is left
    as it was: no engine call is made and nothing is queued. *)
Theorem uninitialized_commands_do_not_reach_engine :
  forall (info : CallbackInfo) (s : world),
    initialized (core s) = false ->
    Init resetVideo info s
    = (Throw (TypeError "Error: OBS API not initialized!"), s) /\
    Init resetAudio info s
    = (Throw (TypeError "Error: OBS API not initialized!"), s) /\
    Init startOutput info s
    = (Throw (TypeError "Error: OBS API not initialized!"), s) /\
    Init shutdown info s
    = (Return (JsString "Error: OBS API not initialized!"), s).
Proof.
  intros info s H. simpl.
  unfold AsyncResetVideoWorker_Create, AsyncResetAudioWorker_Create,
    AsyncStartOutputWorker_Create, obsShutdown.
  unfold_engine. rewrite H. simpl. repeat split; reflexivity.
Qed.

Lemma uninitialized_commands_do_not_reach_engine_witness :
  Init resetVideo [JsString "1280x720"] cold
  = (Throw (TypeError "Error: OBS API not initialized!"), cold) /\
  Init resetAudio [JsString "mono"] cold
  = (Throw (TypeError "Error: OBS API not initialized!"), cold) /\
  Init startOutput [JsString "anything"] cold
  = (Throw (TypeError "Error: OBS API not initialized!"), cold) /\
  Init shutdown [] cold
  = (Return (JsString "Error: OBS API not initialized!"), cold).
Proof.
  destruct (uninitialized_commands_do_not_reach_engine
              [JsString "1280x720"] cold eq_refl) as [V _].
  destruct (uninitialized_commands_do_not_reach_engine
              [JsString "mono"] cold eq_refl) as [_ [A _]].
  destruct (uninitialized_commands_do_not_reach_engine
              [JsString "anything"] cold eq_refl) as [_ [_ [O _]]].
  destruct (uninitialized_commands_do_not_reach_engine
              [] cold eq_refl) as [_ [_ [_ D]]].
  repeat split; assumption.
Defined.

Lemma guard_rejects info :
  ~ one_string info ->
  negb (Nat.eqb (List.length info) 1) || negb (IsString (arg info 0)) = true.
Proof.
  intros H. destruct info as [|v [|v' l]]; try reflexivity.
  destruct v; try reflexivity.
  exfalso. apply H. now exists s.
Qed.

(** C8, as the specification words it, fails when the engine is not
    initialized: the initialization guard comes first, and the error that
    is raised is the not-initialized one. *)
Lemma bad_argument_uninitialized_is_not_initialized_error :
  ~ one_string [] /\
  Init resetVideo [] cold
  = (Throw (TypeError "Error: OBS API not initialized!"), cold) /\
  fst (Init resetVideo [] cold)
  <> Throw (TypeError "Expected a single string argument").
Proof.
  split; [intros [str H]; discriminate|].
  split; [reflexivity | discriminate].
Qed.

(** C8 (amended): on an initialized engine, [resetVideo], [resetAudio] and
    [startOutput] called with anything but exactly one string throw a
    [TypeError] "Expected a single string argument" from [Create] itself;
    the world is left as it was, so nothing is queued and no engine call
    is made. *)
Theorem bad_argument_throws_before_queueing :
  forall (info : CallbackInfo) (s : world),
    initialized (core s) = true ->
    ~ one_string info ->
    Init resetVideo info s
    = (Throw (TypeError "Expected a single string argument"), s) /\
    Init resetAudio info s
    = (Throw (TypeError "Expected a single string argument"), s) /\
    Init startOutput info s
    = (Throw (TypeError "Expected a single string argument"), s).
Proof.
  intros info s H N. apply guard_rejects in N. simpl.
  unfold AsyncResetVideoWorker_Create, AsyncResetAudioWorker_Create,
    AsyncStartOutputWorker_Create.
  unfold_engine. rewrite H. simpl. rewrite N.
  repeat split; reflexivity.
Qed.

Lemma bad_argument_throws_before_queueing_witness :
  Init resetVideo [] warm
  = (Throw (TypeError "Expected a single string argument"), warm) /\
  Init resetAudio [Number 2] warm
  = (Throw (TypeError "Expected a single string argument"), warm) /\
  Init startOutput [JsString "a"; JsString "b"] warm
  = (Throw (TypeError "Expected a single string argument"), warm).
Proof.
  assert (N0 : ~ one_string []) by (intros [str H]; discriminate).
  assert (N1 : ~ one_string [Number 2]) by (intros [str H]; discriminate).
  assert (N2 : ~ one_string [JsString "a"; JsString "b"])
    by (intros [str H]; discriminate).
  destruct (bad_argument_throws_before_queueing [] warm eq_refl N0)
    as [V _].
  destruct (bad_argument_throws_before_queueing [Number 2] warm eq_refl N1)
    as [_ [A _]].
  destruct (bad_argument_throws_before_queueing _ warm eq_refl N2)
    as [_ [_ O]].
  repeat split; assumption.
Defined.

(** * Reconfiguration and the session state *)

Ltac unfold_workers :=
  unfold call, Init, run_pending,
    AsyncResetVideoWorker_Create, AsyncResetVideoWorker_new,
    AsyncResetVideoWorker_Execute, AsyncResetVideoWorker_OnOK,
    AsyncResetAudioWorker_Create, AsyncResetAudioWorker_new,
    AsyncResetAudioWorker_Execute, AsyncResetAudioWorker_OnOK,
    AsyncStartOutputWorker_Create, AsyncStartOutputWorker_new,
    AsyncStartOutputWorker_Execute, AsyncStartOutputWorker_OnOK,
    AsyncStartOutputWorker_OnError, cleanup.

Ltac crunch :=
  repeat progress (unfold_workers; unfold run_work; unfold_engine; simpl).

(** C4, as the specification words it, fails: the source has no
    session-state check.  With an output active, [resetVideo] is queued,
    hands its configuration to the engine and resolves; nothing is
    rejected. *)
Lemma resetVideo_resolves_while_session_running :
  session_running streaming = true /\
  fst (call resetVideo [JsString "1280x720"] streaming)
  = Return (Promise 1%nat) /\
  trace (snd (call resetVideo [JsString "1280x720"] streaming))
  = [Queued 1%nat;
     Native (obs_reset_video_
               (create_ovi 0 "libobs-opengl" VIDEO_FORMAT_I420 30000 1000
                  1280 720 640 360));
     Resolve 1%nat (JsString "1280x720")] /\
  session_running (snd (call resetVideo [JsString "1280x720"] streaming))
  = true.
Proof.
  repeat split; reflexivity.
Qed.

(** The same holds while an attempt is in flight: between [Execute] and
    [OnOK] of a Start-Output worker, with its two encoders live,
    [resetVideo] is accepted and resolves. *)
Example resetVideo_accepted_while_attempt_in_flight :
  let r0 := AsyncStartOutputWorker_new "anything" warm in
  let r1 := AsyncStartOutputWorker_Execute (fst r0) (snd r0) in
  map fst (encoders (core (snd r1))) = [10%nat; 11%nat] /\
  fst (call resetVideo [JsString "1280x720"] (snd r1))
  = Return (Promise 2%nat) /\
  In (Resolve 2%nat (JsString "1280x720"))
     (trace (snd (call resetVideo [JsString "1280x720"] (snd r1)))).
Proof.
  split; [reflexivity|]. split; [reflexivity|].
  vm_compute. tauto.
Qed.

(** C4 (amended): [resetVideo] and [resetAudio] do not look at the session
    state.  On an initialized engine with nothing else queued, a call with
    one string is queued, hands the configuration built from the hint to
    the engine and resolves its promise (with the base size, respectively
    the layout name), whether a session is running or not; the set of
    active outputs is left as it was. *)
Theorem reset_ignores_session_state :
  forall (hint : string) (s : world),
    initialized (core s) = true ->
    pending s = [] ->
    let p := next_promise s in
    (let r := call resetVideo [JsString hint] s in
     fst r = Return (Promise p) /\
     active (core (snd r)) = active (core s) /\
     exists ovi,
       (base_width ovi, base_height ovi) = ParseSizeHint hint /\
       trace (snd r)
       = (trace s ++
          [Queued p; Native (obs_reset_video_ ovi);
           Resolve p (JsString (to_string (base_width ovi) ++ "x"
                                ++ to_string (base_height ovi)))])%list) /\
    (let r := call resetAudio [JsString hint] s in
     fst r = Return (Promise p) /\
     active (core (snd r)) = active (core s) /\
     exists oai name,
       (name = "mono" \/ name = "stereo") /\
       trace (snd r)
       = (trace s ++
          [Queued p; Native (obs_reset_audio_ oai);
           Resolve p (JsString name)])%list).
Proof.
  intros hint s H Q p. subst p. split.
  - unfold_workers. unfold ParseSizeHint. unfold_engine.
    destruct s as [c q n t]. simpl in *. subst q. rewrite H. crunch.
    destruct (parse_size hint) as [[width height] input]. simpl.
    split; [reflexivity|]. split; [reflexivity|].
    exists (create_ovi DEFAULT_VIDEO_ADAPTER DEFAULT_MODULE
              DEFAULT_VIDEO_FORMAT DEFAULT_VIDEO_FPS_NUM DEFAULT_VIDEO_FPS_DEN
              width height DEFAULT_VIDEO_WIDTH DEFAULT_VIDEO_HEIGHT).
    split; [reflexivity|].
    rewrite <- !app_assoc. reflexivity.
  - unfold_workers. unfold_engine.
    destruct s as [c q n t]. simpl in *. subst q. rewrite H. crunch.
    split; [reflexivity|]. split; [reflexivity|].
    destruct (find "mono" hint); simpl; eexists; eexists;
      (split; [|rewrite <- !app_assoc; reflexivity]); auto.
Qed.

Lemma reset_ignores_session_state_witness :
  session_running streaming = true /\
  fst (call resetVideo [JsString "1280x720"] streaming)
  = Return (Promise (next_promise streaming)) /\
  fst (call resetAudio [JsString "1280x720"] streaming)
  = Return (Promise (next_promise streaming)).
Proof.
  destruct (reset_ignores_session_state "1280x720" streaming eq_refl eq_refl)
    as [[V _] [A _]].
  split; [reflexivity|]. split; assumption.
Defined.

(** * The Start-Output attempt *)

Section Release.

Lemma in_drop h k l :
  In h (map fst (drop k l)) <-> In h (map fst l) /\ h <> k.
Proof.
  unfold drop. rewrite !in_map_iff. split.
  - intros [x [Hx Hin]]. apply filter_In in Hin. destruct Hin as [Hin Hk].
    split; [now exists x|].
    intros ->. simpl in Hk. rewrite Hx, Nat.eqb_refl in Hk. discriminate.
  - intros [[x [Hx Hin]] N]. exists x. split; [assumption|].
    apply filter_In. split; [assumption|].
    destruct (Nat.eqb_spec (fst x) k); simpl; congruence.
Qed.

Lemma in_drop_handle h k l :
  In h (drop_handle k l) <-> In h l /\ h <> k.
Proof.
  unfold drop_handle. rewrite filter_In.
  destruct (Nat.eqb_spec h k); simpl; intuition congruence.
Qed.

Lemma incl_drop k l : incl (drop k l) l.
Proof. intros x H. unfold drop in H. now apply filter_In in H. Qed.

Lemma incl_drop_handle k l : incl (drop_handle k l) l.
Proof. intros x H. unfold drop_handle in H. now apply filter_In in H. Qed.

Lemma incl_drop_ptr p l : incl (drop_ptr p l) l.
Proof. destruct p; simpl; [apply incl_drop | apply incl_refl]. Qed.

Lemma incl_drop_handle_ptr p l : incl (drop_handle_ptr p l) l.
Proof. destruct p; simpl; [apply incl_drop_handle | apply incl_refl]. Qed.

Lemma in_drop_ptr h k l :
  In h (map fst (drop_ptr (Some k) l)) <-> In h (map fst l) /\ h <> k.
Proof. apply in_drop. Qed.

Lemma in_drop_ptr_weaken h p l :
  In h (map fst (drop_ptr p l)) -> In h (map fst l).
Proof. destruct p; simpl; [|tauto]. intros H. now apply in_drop in H. Qed.

End Release.

Lemma cleanup_effect w s :
  let r := cleanup w s in
  trace (snd r) = (trace s ++ map Native (release_calls w))%list /\
  encoders (core (snd r))
  = drop_ptr (audio_encoder w)
      (drop_ptr (video_encoder w) (encoders (core s))) /\
  outputs (core (snd r)) = drop_ptr (output w) (outputs (core s)) /\
  services (core (snd r))
  = drop_handle_ptr (streaming_service w) (services (core s)) /\
  active (core (snd r)) = drop_handle_ptr (output w) (active (core s)) /\
  holds_nothing (fst r) /\
  so_deferredPromise (fst r) = so_deferredPromise w /\
  pending (snd r) = pending s /\
  next_promise (snd r) = next_promise s.
Proof.
  unfold holds_nothing, release_calls.
  destruct w as [[v|] [a|] [o|] [sv|] i inp p]; destruct s as [c q n t];
    crunch; rewrite <- ?app_assoc; simpl; rewrite ?app_nil_r;
    repeat split.
Qed.

Lemma cleanup_released w s : released w (snd (cleanup w s)).
Proof.
  destruct (cleanup_effect w s) as [_ [E [O [S [A _]]]]].
  unfold released. rewrite E, O, S, A.
  split; [|split].
  - intros h Ho. rewrite Ho. simpl. split; intros H.
    + apply in_drop in H. tauto.
    + apply in_drop_handle in H. tauto.
  - intros h [V|V] H; rewrite V in H.
    + apply in_drop_ptr_weaken, in_drop in H. tauto.
    + apply in_drop in H. tauto.
  - intros h Hs H. rewrite Hs in H. apply in_drop_handle in H. tauto.
Qed.

Lemma cleanup_nothing_new w s : nothing_new s (snd (cleanup w s)).
Proof.
  destruct (cleanup_effect w s) as [_ [E [O [S [A _]]]]].
  unfold nothing_new. rewrite E, O, S, A. repeat split.
  - eapply incl_tran; apply incl_drop_ptr.
  - apply incl_drop_ptr.
  - apply incl_drop_handle_ptr.
  - apply incl_drop_handle_ptr.
Qed.

(** Objects made and released again leave the list they were added to. *)
Ltac solve_incl :=
  let x := fresh "x" in
  let Hx := fresh "Hx" in
  intros x Hx; unfold drop, drop_handle in Hx;
  repeat (let K := fresh "K" in
          apply filter_In in Hx; destruct Hx as [Hx K]; simpl in K);
  try (apply in_app_iff in Hx; destruct Hx as [Hx|Hx]; [assumption|]);
  simpl in Hx;
  repeat (destruct Hx as [Hx|Hx];
          [subst x; simpl in *; rewrite ?Nat.eqb_refl in *; discriminate|]);
  try assumption; try contradiction.

Lemma live_none s s' :
  nothing_new s s' -> live_handles s = [] -> live_handles s' = [].
Proof.
  unfold nothing_new, live_handles. intros [E [O [S _]]] H.
  apply app_eq_nil in H. destruct H as [He H].
  apply app_eq_nil in H. destruct H as [Ho Hs].
  apply map_eq_nil in He. apply map_eq_nil in Ho.
  rewrite He in E. rewrite Ho in O. rewrite Hs in S.
  apply incl_l_nil in E. apply incl_l_nil in O. apply incl_l_nil in S.
  now rewrite E, O, S.
Qed.

(** A whole attempt: [startOutput] and the completion of the work it
    queued. *)
Lemma startOutput_attempt hint s :
  initialized (core s) = true ->
  pending s = [] ->
  let r := call startOutput [JsString hint] s in
  fst r = Return (Promise (next_promise s)) /\
  In (Resolve (next_promise s) (JsString "ok")) (trace (snd r)) /\
  pending (snd r) = [] /\
  nothing_new s (snd r).
Proof.
  intros H Q. unfold nothing_new.
  destruct s as [c q n t]. simpl in H, Q. subst q.
  crunch. rewrite H. crunch.
  destruct (can_create c "com.apple.videotoolbox.videoencoder.h264.gva");
    crunch; destruct (can_create c "adv_stream_aac"); crunch;
    (split; [reflexivity|]);
    (split; [rewrite !in_app_iff; simpl; tauto|]);
    (split; [reflexivity|]);
    rewrite <- ?app_assoc;
    (split; [first [apply incl_refl | solve_incl]|]);
    repeat split; apply incl_refl.
Qed.

(** C1: every exit of a Start-Output attempt goes through [cleanup] before
    the promise is settled.  [OnOK] and [OnError] alike first stop and
    release the output, then release the video encoder, the audio encoder
    and the service, in that order and each only if its handle is not
    null, and only then resolve, respectively reject.  Afterwards the
    worker holds no handle, no handle it held is live, and no session
    object is live that was not live before.  A whole attempt on an
    initialized engine therefore leaves no session object behind. *)
Theorem start_output_releases_on_every_exit :
  (forall (w : AsyncStartOutputWorker) (s : world),
     let r := AsyncStartOutputWorker_OnOK w s in
     trace (snd r)
     = (trace s ++ map Native (release_calls w)
        ++ [Resolve (so_deferredPromise w) (JsString "ok")])%list /\
     holds_nothing (fst r) /\ released w (snd r) /\ nothing_new s (snd r)) /\
  (forall (e : napi_error) (w : AsyncStartOutputWorker) (s : world),
     let r := AsyncStartOutputWorker_OnError e w s in
     trace (snd r)
     = (trace s ++ map Native (release_calls w)
        ++ [Reject (so_deferredPromise w) e])%list /\
     holds_nothing (fst r) /\ released w (snd r) /\ nothing_new s (snd r)) /\
  (forall (hint : string) (s : world),
     initialized (core s) = true ->
     pending s = [] ->
     let r := call startOutput [JsString hint] s in
     fst r = Return (Promise (next_promise s)) /\
     In (Resolve (next_promise s) (JsString "ok")) (trace (snd r)) /\
     pending (snd r) = [] /\
     nothing_new s (snd r) /\
     (live_handles s = [] -> live_handles (snd r) = [])).
Proof.
  split; [|split].
  - intros w s.
    pose proof (cleanup_effect w s) as E.
    pose proof (cleanup_released w s) as R.
    pose proof (cleanup_nothing_new w s) as N.
    unfold AsyncStartOutputWorker_OnOK. unfold_engine.
    destruct (cleanup w s) as [w' s']. simpl in *.
    destruct E as [T [_ [_ [_ [_ [Hn [P _]]]]]]].
    rewrite T, P, <- app_assoc. auto.
  - intros e w s.
    pose proof (cleanup_effect w s) as E.
    pose proof (cleanup_released w s) as R.
    pose proof (cleanup_nothing_new w s) as N.
    unfold AsyncStartOutputWorker_OnError. unfold_engine.
    destruct (cleanup w s) as [w' s']. simpl in *.
    destruct E as [T [_ [_ [_ [_ [Hn [P _]]]]]]].
    rewrite T, P, <- app_assoc. auto.
  - intros hint s H Q.
    destruct (startOutput_attempt hint s H Q) as [R [I [P N]]].
    repeat (split; [assumption|]).
    now apply live_none.
Qed.

Lemma start_output_releases_on_every_exit_witness :
  let r := call startOutput [JsString "anything"] warm in
  fst r = Return (Promise (next_promise warm)) /\
  In (Resolve (next_promise warm) (JsString "ok")) (trace (snd r)) /\
  pending (snd r) = [] /\
  nothing_new warm (snd r) /\
  (live_handles warm = [] -> live_handles (snd r) = []).
Proof.
  destruct start_output_releases_on_every_exit as [_ [_ A]].
  exact (A "anything" warm eq_refl eq_refl).
Defined.

(** C2: the source departs from the specification here.  [Execute]
    creates the video encoder and the audio encoder, in that order, and
    binds them to the engine's current video and audio pipelines; it never
    creates an output or a service.  [output] and [streaming_service] are
    still null when the encoders and the service are attached and when the
    output is started, whatever the hint and the state of the engine. *)
Theorem start_output_creates_no_output_or_service :
  forall (hint : string) (s : world),
    let r0 := AsyncStartOutputWorker_new hint s in
    let r := AsyncStartOutputWorker_Execute (fst r0) (snd r0) in
    output (fst r) = nullptr /\
    streaming_service (fst r) = nullptr /\
    outputs (core (snd r)) = outputs (core s) /\
    services (core (snd r)) = services (core s) /\
    active (core (snd r)) = active (core s) /\
    trace (snd r)
    = (trace s ++
       map Native
         [obs_video_encoder_create_
            "com.apple.videotoolbox.videoencoder.h264.gva" "" nullptr nullptr;
          obs_audio_encoder_create_ "adv_stream_aac" "" nullptr 0 nullptr;
          obs_encoder_set_video_ (video_encoder (fst r)) (video (core s));
          obs_encoder_set_audio_ (audio_encoder (fst r)) (audio (core s));
          obs_output_set_video_encoder_ nullptr (video_encoder (fst r));
          obs_output_set_audio_encoder_ nullptr (audio_encoder (fst r)) 0;
          obs_output_set_service_ nullptr nullptr;
          obs_output_start_ nullptr])%list.
Proof.
  intros hint s. destruct s as [c q n t]. crunch.
  destruct (can_create c "com.apple.videotoolbox.videoencoder.h264.gva");
    crunch; destruct (can_create c "adv_stream_aac"); crunch;
    rewrite <- !app_assoc; simpl; repeat split.
Qed.

(** The attempt on the sample engine: two encoders are created and
    released, the output that is started is null. *)
Example start_output_on_sample_engine :
  native_calls (trace (snd (call startOutput [JsString "anything"] warm)))
  = [obs_startup_ "en-US" nullptr nullptr;
     obs_load_all_modules_;
     obs_video_encoder_create_
       "com.apple.videotoolbox.videoencoder.h264.gva" "" nullptr nullptr;
     obs_audio_encoder_create_ "adv_stream_aac" "" nullptr 0 nullptr;
     obs_encoder_set_video_ (Some 10%nat) (Some 1%nat);
     obs_encoder_set_audio_ (Some 11%nat) (Some 2%nat);
     obs_output_set_video_encoder_ nullptr (Some 10%nat);
     obs_output_set_audio_encoder_ nullptr (Some 11%nat) 0;
     obs_output_set_service_ nullptr nullptr;
     obs_output_start_ nullptr;
     obs_encoder_release_ (Some 10%nat);
     obs_encoder_release_ (Some 11%nat)].
Proof. reflexivity. Qed.

(** * The argument of [startOutput] *)

Lemma run_all_app l1 : forall l2 s,
  run_all (l1 ++ l2) s = run_all l2 (snd (run_all l1 s)).
Proof.
  induction l1 as [|w l1 IH]; intros l2 s; simpl; [reflexivity|].
  unfold bind. destruct (run_work w s) as [u s1]. apply IH.
Qed.

Lemma run_start_ignores_input a b p s :
  run_work
    (StartOutputWork
       {| video_encoder := nullptr; audio_encoder := nullptr;
          output := nullptr; streaming_service := nullptr;
          audio_index := 0; so_input := a; so_deferredPromise := p |}) s
  = run_work
      (StartOutputWork
         {| video_encoder := nullptr; audio_encoder := nullptr;
            output := nullptr; streaming_service := nullptr;
            audio_index := 0; so_input := b; so_deferredPromise := p |}) s.
Proof.
  destruct s as [c q n t]. crunch.
  destruct (can_create c "com.apple.videotoolbox.videoencoder.h264.gva");
    crunch; destruct (can_create c "adv_stream_aac"); crunch; reflexivity.
Qed.

(** C9: [startOutput] does not depend on its string argument.  For any two
    strings the command returns the same value and leaves the same world:
    the same engine calls with the same arguments, the same engine state,
    the same settlement.  On an initialized engine with nothing else
    queued the calls are the ones below, with the two hard-coded encoder
    identifiers, and the promise resolves with ["ok"]. *)
Theorem startOutput_ignores_its_argument :
  (forall (a b : string) (s : world),
     call startOutput [JsString a] s = call startOutput [JsString b] s) /\
  (forall (a : string) (s : world),
     initialized (core s) = true ->
     pending s = [] ->
     exists v au : ptr,
       trace (snd (call startOutput [JsString a] s))
       = (trace s ++ [Queued (next_promise s)] ++
          map Native
            ([obs_video_encoder_create_
                "com.apple.videotoolbox.videoencoder.h264.gva" ""
                nullptr nullptr;
              obs_audio_encoder_create_ "adv_stream_aac" "" nullptr 0 nullptr;
              obs_encoder_set_video_ v (video (core s));
              obs_encoder_set_audio_ au (audio (core s));
              obs_output_set_video_encoder_ nullptr v;
              obs_output_set_audio_encoder_ nullptr au 0;
              obs_output_set_service_ nullptr nullptr;
              obs_output_start_ nullptr]
             ++ match v with Some _ => [obs_encoder_release_ v] | None => [] end
             ++ match au with Some _ => [obs_encoder_release_ au] | None => [] end)
          ++ [Resolve (next_promise s) (JsString "ok")])%list).
Proof.
  split.
  - intros a b s. unfold call, Init, AsyncStartOutputWorker_Create,
      AsyncStartOutputWorker_new, run_pending.
    unfold_engine. destruct s as [c q n t]. simpl.
    destruct (initialized c); simpl; [|reflexivity].
    rewrite !run_all_app. cbn [run_all]. unfold bind.
    rewrite (run_start_ignores_input a b). reflexivity.
  - intros a s H Q. destruct s as [c q n t]. simpl in H, Q. subst q.
    crunch. rewrite H. crunch.
    destruct (can_create c "com.apple.videotoolbox.videoencoder.h264.gva");
      crunch; destruct (can_create c "adv_stream_aac"); crunch.
    + exists (Some (next_handle c)), (Some (S (next_handle c))).
      rewrite <- !app_assoc. reflexivity.
    + exists (Some (next_handle c)), nullptr.
      rewrite <- !app_assoc. reflexivity.
    + exists nullptr, (Some (next_handle c)).
      rewrite <- !app_assoc. reflexivity.
    + exists nullptr, nullptr.
      rewrite <- !app_assoc. reflexivity.
Qed.

Lemma startOutput_ignores_its_argument_witness :
  call startOutput [JsString "rtmp://a"] warm
  = call startOutput [JsString "rtmp://b"] warm /\
  In (Resolve (next_promise warm) (JsString "ok"))
     (trace (snd (call startOutput [JsString "rtmp://a"] warm))).
Proof.
  destruct startOutput_ignores_its_argument as [E T].
  split; [apply E|].
  destruct (T "rtmp://a" warm eq_refl eq_refl) as [v [au Tr]].
  rewrite Tr, !in_app_iff. right. right. right. simpl. tauto.
Defined.

(** * Beyond the specification: startup and shutdown *)

(** X1: [initialize], when the engine is up after [obs_startup] (it was up
    already, or the startup succeeds), starts the engine and loads the
    modules inside [Create], in that order, before anything is queued; the
    worker only reads the version, and the promise resolves with ["v"]
    followed by the version string.  The arguments are not looked at. *)
Theorem initialize_starts_loads_and_resolves :
  forall (info : CallbackInfo) (s : world),
    pending s = [] ->
    initialized (core s) = true \/ startup_succeeds (core s) = true ->
    let r := call initialize info s in
    fst r = Return (Promise (next_promise s)) /\
    trace (snd r)
    = (trace s ++
       [Native (obs_startup_ "en-US" nullptr nullptr);
        Native obs_load_all_modules_;
        Queued (next_promise s);
        Resolve (next_promise s)
          (JsString (String "v" (version_string (core s))))])%list /\
    initialized (core (snd r)) = true /\
    pending (snd r) = [].
Proof.
  intros info s Q H. destruct s as [c q n t]. simpl in Q, H. subst q.
  unfold call, Init, run_pending, AsyncInitializeWorker_Create.
  unfold_engine. simpl.
  destruct (initialized c) eqn:I; simpl.
  - rewrite I. simpl. unfold AsyncInitializeWorker_Execute,
      AsyncInitializeWorker_OnOK. unfold_engine. simpl.
    rewrite <- !app_assoc. repeat split; assumption.
  - destruct H as [H|H]; [discriminate|]. rewrite H. simpl.
    unfold AsyncInitializeWorker_Execute, AsyncInitializeWorker_OnOK.
    unfold_engine. simpl. rewrite <- !app_assoc. repeat split.
Qed.

Lemma initialize_starts_loads_and_resolves_witness :
  In (Resolve 0%nat (JsString "v27.0.0"))
     (trace (snd (call initialize [] cold))) /\
  initialized (core (snd (call initialize [Number 1] warm))) = true.
Proof.
  destruct (initialize_starts_loads_and_resolves [] cold eq_refl
              (or_intror eq_refl)) as [_ [T _]].
  destruct (initialize_starts_loads_and_resolves [Number 1] warm eq_refl
              (or_introl eq_refl)) as [_ [_ [I _]]].
  split; [|exact I].
  rewrite T. simpl. tauto.
Defined.

(** X2: [initialize] on an engine that does not come up throws a
    [TypeError] with the not-initialized message from [Create]:
    [obs_startup] has been called, the modules are not loaded, nothing is
    queued and no promise is made. *)
Theorem initialize_failure_throws :
  forall (info : CallbackInfo) (s : world),
    initialized (core s) = false ->
    startup_succeeds (core s) = false ->
    let r := Init initialize info s in
    fst r = Throw (TypeError "Error: OBS API not initialized!") /\
    trace (snd r)
    = (trace s ++ [Native (obs_startup_ "en-US" nullptr nullptr)])%list /\
    core (snd r) = core s /\
    pending (snd r) = pending s /\
    next_promise (snd r) = next_promise s.
Proof.
  intros info s I F. destruct s as [c q n t]. simpl in I, F.
  unfold Init, AsyncInitializeWorker_Create. unfold_engine. simpl.
  rewrite I, F. simpl. rewrite I. simpl. repeat split.
Qed.

Lemma initialize_failure_throws_witness :
  fst (Init initialize [] broken)
  = Throw (TypeError "Error: OBS API not initialized!") /\
  pending (snd (Init initialize [] broken)) = [].
Proof.
  destruct (initialize_failure_throws [] broken eq_refl eq_refl)
    as [R [_ [_ [P _]]]].
  split; [exact R | exact P].
Defined.

(** X3: [shutdown] on an initialized engine calls [obs_shutdown] once and
    returns "Success shutting down OBS"; afterwards the engine is not
    initialized.  It looks neither at its arguments, nor at the queue, nor
    at whether an output is active. *)
Theorem shutdown_terminates_engine :
  forall (info : CallbackInfo) (s : world),
    initialized (core s) = true ->
    let r := Init shutdown info s in
    fst r = Return (JsString "Success shutting down OBS") /\
    trace (snd r) = (trace s ++ [Native obs_shutdown_])%list /\
    initialized (core (snd r)) = false /\
    pending (snd r) = pending s.
Proof.
  intros info s I. destruct s as [c q n t]. simpl in I.
  unfold Init, obsShutdown. unfold_engine. simpl. rewrite I. simpl.
  repeat split.
Qed.

Lemma shutdown_terminates_engine_witness :
  session_running streaming = true /\
  fst (Init shutdown [JsString "now"] streaming)
  = Return (JsString "Success shutting down OBS") /\
  initialized (core (snd (Init shutdown [JsString "now"] streaming))) = false.
Proof.
  destruct (shutdown_terminates_engine [JsString "now"] streaming eq_refl)
    as [R [_ [I _]]].
  split; [reflexivity|]. split; [exact R | exact I].
Defined.

(** X4: after a successful [shutdown] the engine-dependent commands behave
    as on an engine that was never started: [resetVideo], [resetAudio]
    and [startOutput] throw the not-initialized error, a second [shutdown]
    and the two queries return the sentinel string, and none of them
    changes anything. *)
Theorem commands_after_shutdown :
  forall (info info' : CallbackInfo) (s : world),
    initialized (core s) = true ->
    let s1 := snd (Init shutdown info s) in
    Init resetVideo info' s1
    = (Throw (TypeError "Error: OBS API not initialized!"), s1) /\
    Init resetAudio info' s1
    = (Throw (TypeError "Error: OBS API not initialized!"), s1) /\
    Init startOutput info' s1
    = (Throw (TypeError "Error: OBS API not initialized!"), s1) /\
    Init shutdown info' s1
    = (Return (JsString "Error: OBS API not initialized!"), s1) /\
    Init getCodecs info' s1
    = (Return (JsString "Error: OBS API not initialized!"), s1) /\
    Init getOutputs info' s1
    = (Return (JsString "Error: OBS API not initialized!"), s1).
Proof.
  intros info info' s I. destruct s as [c q n t]. simpl in I.
  unfold Init, obsShutdown, obsGetCodecs, obsGetOutputs,
    AsyncResetVideoWorker_Create, AsyncResetAudioWorker_Create,
    AsyncStartOutputWorker_Create.
  unfold_engine. simpl. rewrite I. simpl. repeat split.
Qed.

Lemma commands_after_shutdown_witness :
  fst (Init startOutput [JsString "anything"] (snd (Init shutdown [] warm)))
  = Throw (TypeError "Error: OBS API not initialized!") /\
  fst (Init shutdown [] (snd (Init shutdown [] warm)))
  = Return (JsString "Error: OBS API not initialized!").
Proof.
  destruct (commands_after_shutdown [] [JsString "anything"] warm eq_refl)
    as [_ [_ [O _]]].
  destruct (commands_after_shutdown [] [] warm eq_refl)
    as [_ [_ [_ [D _]]]].
  split; [now rewrite O | now rewrite D].
Defined.

(** * Beyond the specification: dispatch and settlement *)

(** X5: a well-formed call of [resetVideo], [resetAudio] or [startOutput]
    on an initialized engine does no engine work in [Create]: it makes one
    promise, queues one worker for it and returns the promise; the engine
    is untouched and the only thing observed is the queueing. *)
Theorem dispatch_only_queues :
  forall (c : command) (str : string) (s : world),
    takes_string c ->
    initialized (core s) = true ->
    let r := Init c [JsString str] s in
    fst r = Return (Promise (next_promise s)) /\
    core (snd r) = core s /\
    trace (snd r) = (trace s ++ [Queued (next_promise s)])%list /\
    next_promise (snd r) = S (next_promise s) /\
    exists w, pending (snd r) = (pending s ++ [w])%list /\
              promise_of w = next_promise s.
Proof.
  intros c str s T I. destruct s as [k q n t]. simpl in I.
  destruct T as [-> | [-> | ->]];
    unfold Init, AsyncResetVideoWorker_Create, AsyncResetVideoWorker_new,
      AsyncResetAudioWorker_Create, AsyncResetAudioWorker_new,
      AsyncStartOutputWorker_Create, AsyncStartOutputWorker_new;
    unfold_engine; simpl; rewrite I; simpl;
    (split; [reflexivity|]); (split; [reflexivity|]);
    (split; [reflexivity|]); (split; [reflexivity|]);
    eexists; split; reflexivity.
Qed.

Lemma dispatch_only_queues_witness :
  core (snd (Init startOutput [JsString "anything"] warm)) = core warm /\
  trace (snd (Init resetVideo [JsString "1280x720"] warm))
  = (trace warm ++ [Queued (next_promise warm)])%list.
Proof.
  destruct (dispatch_only_queues startOutput "anything" warm
              (or_intror (or_intror eq_refl)) eq_refl) as [_ [C _]].
  destruct (dispatch_only_queues resetVideo "1280x720" warm
              (or_introl eq_refl) eq_refl) as [_ [_ [T _]]].
  split; [exact C | exact T].
Defined.

Section Settlement.

(** What [Execute] of a Start-Output worker adds to the trace. *)
Lemma start_execute_trace w s :
  exists cs,
    trace (snd (AsyncStartOutputWorker_Execute w s))
    = (trace s ++ map Native cs)%list /\
    so_deferredPromise (fst (AsyncStartOutputWorker_Execute w s))
    = so_deferredPromise w.
Proof.
  destruct s as [c q n t]. unfold AsyncStartOutputWorker_Execute.
  unfold_engine. simpl.
  destruct (can_create c "com.apple.videotoolbox.videoencoder.h264.gva");
    simpl; destruct (can_create c "adv_stream_aac"); simpl;
    destruct (output w) as [o|]; simpl;
    try destruct (is_live o _); simpl;
    rewrite <- !app_assoc; simpl;
    (eexists (_ :: _ :: _ :: _ :: _ :: _ :: _ :: [_]); split; reflexivity).
Qed.

(** One worker adds engine calls and then resolves its promise. *)
Lemma run_work_trace w s :
  exists cs v,
    trace (snd (run_work w s))
    = (trace s ++ map Native cs ++ [Resolve (promise_of w) v])%list.
Proof.
  destruct w as [w|w|w|w]; simpl.
  - destruct s as [c q n t]. unfold bind, AsyncInitializeWorker_Execute,
      AsyncInitializeWorker_OnOK. unfold_engine. simpl.
    exists [], (JsString (String "v" (version_string c))). reflexivity.
  - destruct s as [c q n t]. unfold bind, AsyncResetVideoWorker_Execute,
      AsyncResetVideoWorker_OnOK.
    destruct (parse_size (rv_input w)) as [[width height] input].
    unfold_engine. simpl. rewrite <- app_assoc.
    eexists [_], _. reflexivity.
  - destruct s as [c q n t]. unfold bind, AsyncResetAudioWorker_Execute,
      AsyncResetAudioWorker_OnOK. unfold_engine. simpl. rewrite <- app_assoc.
    eexists [_], _. reflexivity.
  - unfold bind, AsyncStartOutputWorker_OnOK.
    destruct (start_execute_trace w s) as [cs [T P]].
    destruct (AsyncStartOutputWorker_Execute w s) as [w1 s1]. simpl in T, P.
    destruct (cleanup_effect w1 s1) as [T1 [_ [_ [_ [_ [_ [P1 _]]]]]]].
    unfold bind. destruct (cleanup w1 s1) as [w2 s2]. simpl in T1, P1.
    unfold_engine. simpl. rewrite T1, T, P1, P.
    exists (cs ++ release_calls w1)%list, (JsString "ok").
    rewrite map_app, <- !app_assoc. reflexivity.
Qed.

Lemma in_map_native_reject p e cs : ~ In (Reject p e) (map Native cs).
Proof.
  intros H. apply in_map_iff in H. destruct H as [c [E _]]. discriminate.
Qed.

(** A run of queued work adds events, none of them a rejection, and among
    them a resolution for every worker that ran. *)
Lemma run_all_trace ws : forall s,
  exists evs,
    trace (snd (run_all ws s)) = (trace s ++ evs)%list /\
    (forall p e, ~ In (Reject p e) evs) /\
    (forall w, In w ws -> exists v, In (Resolve (promise_of w) v) evs).
Proof.
  induction ws as [|w ws IH]; intros s; simpl.
  - exists []. rewrite app_nil_r. split; [reflexivity|].
    split; [intros p e H; exact H | intros w []].
  - unfold bind. destruct (run_work_trace w s) as [cs [v T]].
    destruct (run_work w s) as [u s1]. simpl in T.
    destruct (IH s1) as [evs [T' [NR AR]]].
    exists ((map Native cs ++ [Resolve (promise_of w) v]) ++ evs)%list.
    split; [rewrite T', T, <- !app_assoc; reflexivity|]. split.
    + intros p e H. rewrite !in_app_iff in H.
      destruct H as [[H|H]|H].
      * now apply in_map_native_reject in H.
      * simpl in H. destruct H as [H|[]]. discriminate.
      * now apply NR in H.
    + intros w' [<-|H].
      * exists v. rewrite !in_app_iff. left. right. simpl. tauto.
      * destruct (AR w' H) as [v' Hv]. exists v'.
        rewrite in_app_iff. now right.
Qed.

(** What [Create], or a synchronous command, adds to the trace: engine
    calls and queueings only. *)
Lemma Init_trace c info s :
  exists evs,
    trace (snd (Init c info s)) = (trace s ++ evs)%list /\
    forall p e, ~ In (Reject p e) evs.
Proof.
  destruct s as [k q n t].
  destruct c; unfold Init, AsyncInitializeWorker_Create, obsShutdown,
    AsyncResetVideoWorker_Create, AsyncResetVideoWorker_new,
    AsyncResetAudioWorker_Create, AsyncResetAudioWorker_new,
    AsyncStartOutputWorker_Create, AsyncStartOutputWorker_new,
    obsGetCodecs, obsGetOutputs; unfold_engine; simpl.
  - destruct (initialized k) eqn:I; simpl; rewrite ?I; simpl.
    + rewrite <- !app_assoc. eexists. split; [reflexivity|].
      intros p e [H|[H|[H|[]]]]; discriminate.
    + destruct (startup_succeeds k); simpl; rewrite ?I; simpl.
      * rewrite <- !app_assoc. eexists. split; [reflexivity|].
        intros p e [H|[H|[H|[]]]]; discriminate.
      * eexists. split; [reflexivity|].
        intros p e [H|[]]; discriminate.
  - destruct (initialized k); simpl.
    + eexists. split; [reflexivity|]. intros p e [H|[]]; discriminate.
    + exists []. rewrite app_nil_r. split; [reflexivity | intros p e []].
  - destruct (initialized k); simpl;
      [|exists []; rewrite app_nil_r; split; [reflexivity | intros p e []]].
    destruct (negb (Nat.eqb (List.length info) 1)
              || negb (IsString (arg info 0))); simpl.
    + exists []. rewrite app_nil_r. split; [reflexivity | intros p e []].
    + eexists. split; [reflexivity|]. intros p e [H|[]]; discriminate.
  - destruct (initialized k); simpl;
      [|exists []; rewrite app_nil_r; split; [reflexivity | intros p e []]].
    destruct (negb (Nat.eqb (List.length info) 1)
              || negb (IsString (arg info 0))); simpl.
    + exists []. rewrite app_nil_r. split; [reflexivity | intros p e []].
    + eexists. split; [reflexivity|]. intros p e [H|[]]; discriminate.
  - destruct (initialized k); simpl;
      [|exists []; rewrite app_nil_r; split; [reflexivity | intros p e []]].
    destruct (negb (Nat.eqb (List.length info) 1)
              || negb (IsString (arg info 0))); simpl.
    + exists []. rewrite app_nil_r. split; [reflexivity | intros p e []].
    + eexists. split; [reflexivity|]. intros p e [H|[]]; discriminate.
  - destruct (initialized k); simpl.
    + destruct (enum_objects enumCodecs (Some "") (encoders k));
        eexists; (split; [reflexivity|]); intros p e [H|[]]; discriminate.
    + exists []. rewrite app_nil_r. split; [reflexivity | intros p e []].
  - destruct (initialized k); simpl.
    + destruct (enum_objects enumOutputs (Some "") (outputs k));
        eexists; (split; [reflexivity|]); intros p e [H|[]]; discriminate.
    + exists []. rewrite app_nil_r. split; [reflexivity | intros p e []].
Qed.

(** Running a worker keeps the queue, the promise counter and the
    engine's initialized flag. *)
Lemma run_work_frame w s :
  pending (snd (run_work w s)) = pending s /\
  next_promise (snd (run_work w s)) = next_promise s /\
  initialized (core (snd (run_work w s))) = initialized (core s).
Proof.
  destruct s as [c q n t]. destruct w as [w|w|w|w].
  - crunch. unfold AsyncInitializeWorker_Execute, AsyncInitializeWorker_OnOK.
    crunch. repeat split.
  - crunch. destruct (parse_size (rv_input w)) as [[width height] input].
    crunch. repeat split.
  - crunch. repeat split.
  - destruct w as [v a [o|] [sv|] i inp p]; crunch;
      destruct (can_create c "com.apple.videotoolbox.videoencoder.h264.gva");
      crunch; destruct (can_create c "adv_stream_aac"); crunch;
      try destruct (is_live o (outputs c)); crunch; repeat split.
Qed.

Lemma run_all_frame ws : forall s,
  pending (snd (run_all ws s)) = pending s /\
  next_promise (snd (run_all ws s)) = next_promise s /\
  initialized (core (snd (run_all ws s))) = initialized (core s).
Proof.
  induction ws as [|w ws IH]; intros s; simpl; [repeat split|].
  unfold bind. destruct (run_work_frame w s) as [P [N I]].
  destruct (run_work w s) as [u s1]. simpl in P, N, I.
  destruct (IH s1) as [P' [N' I']].
  rewrite P', N', I', P, N, I. repeat split.
Qed.

End Settlement.

(** X6: no command of the addon ever rejects a promise.  Whatever the
    command, its arguments, the state of the engine and the work already
    queued, a rejection found in the trace after the call and the
    completion of the queued work was there before. *)
Theorem no_promise_is_rejected :
  forall (c : command) (info : CallbackInfo) (s : world)
         (p : nat) (e : napi_error),
    In (Reject p e) (trace (snd (call c info s))) ->
    In (Reject p e) (trace s).
Proof.
  intros c info s p e. unfold call, bind, run_pending, ret.
  destruct (Init_trace c info s) as [evs [T NR]].
  destruct (Init c info s) as [r s1]. simpl in T.
  destruct (run_all_trace (pending s1)
              {| core := core s1; pending := [];
                 next_promise := next_promise s1; trace := trace s1 |})
    as [evs' [T' [NR' _]]].
  destruct (run_all (pending s1) _) as [u s2]. simpl in T'. simpl.
  rewrite T', T, !in_app_iff. intros [[H|H]|H].
  - exact H.
  - now apply NR in H.
  - now apply NR' in H.
Qed.

Lemma no_promise_is_rejected_witness :
  ~ In (Reject 0%nat (TypeError "x"))
       (trace (snd (call startOutput [JsString "anything"] barren))).
Proof.
  intros H. apply no_promise_is_rejected in H. exact H.
Defined.

(** X7: every queued worker resolves its promise when the queue is run,
    and the queue is empty afterwards. *)
Theorem queued_work_always_resolves :
  forall (s : world) (w : work),
    In w (pending s) ->
    (exists v, In (Resolve (promise_of w) v) (trace (snd (run_pending s)))) /\
    pending (snd (run_pending s)) = [].
Proof.
  intros s w H. unfold run_pending.
  destruct (run_all_trace (pending s)
              {| core := core s; pending := [];
                 next_promise := next_promise s; trace := trace s |})
    as [evs [T [_ AR]]].
  split.
  - destruct (AR w H) as [v Hv]. exists v. rewrite T, in_app_iff. now right.
  - now destruct (run_all_frame (pending s)
                    {| core := core s; pending := [];
                       next_promise := next_promise s; trace := trace s |})
      as [P _].
Qed.

Lemma queued_work_always_resolves_witness :
  let s := snd (Init resetAudio [JsString "mono"]
                  (snd (Init startOutput [JsString "anything"] warm))) in
  (exists v, In (Resolve 1%nat v) (trace (snd (run_pending s)))) /\
  (exists v, In (Resolve 2%nat v) (trace (snd (run_pending s)))).
Proof.
  intros s.
  assert (A : List.length (pending s) = 2%nat) by reflexivity.
  destruct (pending s) as [|w1 [|w2 [|w3 l]]] eqn:P; try discriminate.
  assert (P1 : promise_of w1 = 1%nat)
    by (change w1 with (nth 0 [w1; w2] w1); rewrite <- P; reflexivity).
  assert (P2 : promise_of w2 = 2%nat)
    by (change w2 with (nth 1 [w1; w2] w1); rewrite <- P; reflexivity).
  split.
  - rewrite <- P1. apply (queued_work_always_resolves s w1).
    rewrite P. simpl. tauto.
  - rewrite <- P2. apply (queued_work_always_resolves s w2).
    rewrite P. simpl. tauto.
Defined.

(** X8: the engine's initialized flag is changed by [initialize] and
    [shutdown] only: across any other command and the completion of all
    queued work it stays as it was. *)
Theorem initialized_flag_is_stable :
  forall (c : command) (info : CallbackInfo) (s : world),
    c <> initialize -> c <> shutdown ->
    initialized (core (snd (call c info s))) = initialized (core s).
Proof.
  intros c info s NI NS. unfold call, bind, run_pending, ret.
  assert (F : initialized (core (snd (Init c info s))) = initialized (core s)).
  { destruct s as [k q n t].
    destruct c; try congruence;
      unfold Init, AsyncResetVideoWorker_Create, AsyncResetVideoWorker_new,
        AsyncResetAudioWorker_Create, AsyncResetAudioWorker_new,
        AsyncStartOutputWorker_Create, AsyncStartOutputWorker_new,
        obsGetCodecs, obsGetOutputs; unfold_engine; simpl;
      destruct (initialized k) eqn:I; simpl; try assumption;
      try (destruct (negb (Nat.eqb (List.length info) 1)
                     || negb (IsString (arg info 0))); simpl; assumption).
    - destruct (enum_objects enumCodecs (Some "") (encoders k)); assumption.
    - destruct (enum_objects enumOutputs (Some "") (outputs k)); assumption. }
  destruct (Init c info s) as [r s1]. simpl in F.
  destruct (run_all_frame (pending s1)
              {| core := core s1; pending := [];
                 next_promise := next_promise s1; trace := trace s1 |})
    as [_ [_ I]].
  destruct (run_all (pending s1) _) as [u s2]. simpl in I. simpl.
  now rewrite I.
Qed.

Lemma initialized_flag_is_stable_witness :
  initialized (core (snd (call startOutput [JsString "anything"] warm)))
  = initialized (core warm).
Proof.
  apply initialized_flag_is_stable; discriminate.
Defined.

(** X9: the two queries are read-only.  In either state of the engine, and
    whatever arguments they are given, they leave the engine and the queue
    as they were, and their answer does not depend on the arguments. *)
Theorem queries_are_read_only :
  forall (info info' : CallbackInfo) (s : world),
    core (snd (obsGetCodecs info s)) = core s /\
    pending (snd (obsGetCodecs info s)) = pending s /\
    core (snd (obsGetOutputs info s)) = core s /\
    pending (snd (obsGetOutputs info s)) = pending s /\
    obsGetCodecs info s = obsGetCodecs info' s /\
    obsGetOutputs info s = obsGetOutputs info' s.
Proof.
  intros info info' s. destruct s as [k q n t].
  unfold obsGetCodecs, obsGetOutputs. unfold_engine. simpl.
  destruct (initialized k); simpl; [|repeat split].
  destruct (enum_objects enumCodecs (Some "") (encoders k));
    destruct (enum_objects enumOutputs (Some "") (outputs k));
    repeat split.
Qed.

(** * Beyond the specification: the Start-Output attempt *)

(** X10: a failed encoder creation is not reported.  When the engine can
    make neither encoder, the attempt still binds, attaches and starts,
    with null encoders and a null output, releases nothing, leaves the
    engine as it was, and resolves with ["ok"]. *)
Theorem startOutput_resolves_ok_without_encoders :
  forall (hint : string) (s : world),
    initialized (core s) = true ->
    pending s = [] ->
    can_create (core s) "com.apple.videotoolbox.videoencoder.h264.gva"
    = false ->
    can_create (core s) "adv_stream_aac" = false ->
    let r := call startOutput [JsString hint] s in
    fst r = Return (Promise (next_promise s)) /\
    core (snd r) = core s /\
    trace (snd r)
    = (trace s ++
       [Queued (next_promise s);
        Native (obs_video_encoder_create_
                  "com.apple.videotoolbox.videoencoder.h264.gva" ""
                  nullptr nullptr);
        Native (obs_audio_encoder_create_ "adv_stream_aac" "" nullptr 0
                  nullptr);
        Native (obs_encoder_set_video_ nullptr (video (core s)));
        Native (obs_encoder_set_audio_ nullptr (audio (core s)));
        Native (obs_output_set_video_encoder_ nullptr nullptr);
        Native (obs_output_set_audio_encoder_ nullptr nullptr 0);
        Native (obs_output_set_service_ nullptr nullptr);
        Native (obs_output_start_ nullptr);
        Resolve (next_promise s) (JsString "ok")])%list.
Proof.
  intros hint s I Q V A. destruct s as [c q n t]. simpl in I, Q, V, A.
  subst q. crunch. rewrite I. crunch. rewrite V. crunch. rewrite A. crunch.
  rewrite <- !app_assoc. repeat split.
Qed.

Lemma startOutput_resolves_ok_without_encoders_witness :
  fst (call startOutput [JsString "anything"] barren)
  = Return (Promise 0%nat) /\
  core (snd (call startOutput [JsString "anything"] barren)) = core barren.
Proof.
  destruct (startOutput_resolves_ok_without_encoders "anything" barren
              eq_refl eq_refl eq_refl eq_refl) as [R [C _]].
  split; [exact R | exact C].
Defined.

Section Fresh.

Lemma filter_id {A} (f : A -> bool) (l : list A) :
  (forall x, In x l -> f x = true) -> filter f l = l.
Proof.
  induction l as [|a l IH]; simpl; intros H; [reflexivity|].
  rewrite (H a) by now left. f_equal. apply IH. intros x Hx. apply H. now right.
Qed.

Lemma drop_absent k l : ~ In k (map fst l) -> drop k l = l.
Proof.
  intros H. unfold drop. apply filter_id. intros x Hx.
  destruct (Nat.eqb_spec (fst x) k) as [E|N]; [|reflexivity].
  exfalso. apply H. rewrite <- E. now apply in_map.
Qed.

Lemma drop_app k l1 l2 : drop k (l1 ++ l2) = (drop k l1 ++ drop k l2)%list.
Proof. unfold drop. apply filter_app. Qed.

(** An object made with a fresh handle and released again leaves the
    list as it was. *)
Lemma drop_made k name l :
  ~ In k (map fst l) -> drop k (l ++ [(k, name)]) = l.
Proof.
  intros H. rewrite drop_app, (drop_absent _ _ H). unfold drop. simpl.
  rewrite Nat.eqb_refl. simpl. apply app_nil_r.
Qed.

Lemma drop_made2 k name name' l :
  ~ In k (map fst l) -> ~ In (S k) (map fst l) ->
  drop (S k) (drop k ((l ++ [(k, name)]) ++ [(S k, name')])) = l.
Proof.
  intros H H'. rewrite drop_app, (drop_made _ _ _ H).
  rewrite (drop_absent k [(S k, name')]) by (simpl; lia).
  now apply drop_made.
Qed.

End Fresh.

(** X11: acquisitions and releases balance exactly.  On an initialized
    engine whose live encoders were all handed out before the next fresh
    handle, a whole Start-Output attempt ends with exactly the encoders,
    outputs, services and active outputs it began with, whether the
    engine could make both encoders, one, or none. *)
Theorem startOutput_restores_live_objects :
  forall (hint : string) (s : world),
    initialized (core s) = true ->
    pending s = [] ->
    fresh_handles s ->
    let r := call startOutput [JsString hint] s in
    encoders (core (snd r)) = encoders (core s) /\
    outputs (core (snd r)) = outputs (core s) /\
    services (core (snd r)) = services (core s) /\
    active (core (snd r)) = active (core s).
Proof.
  intros hint s I Q F. destruct s as [c q n t]. unfold fresh_handles in F.
  simpl in I, Q, F. subst q.
  assert (N0 : ~ In (next_handle c) (map fst (encoders c)))
    by (intros H; apply F in H; lia).
  assert (N1 : ~ In (S (next_handle c)) (map fst (encoders c)))
    by (intros H; apply F in H; lia).
  crunch. rewrite I. crunch.
  destruct (can_create c "com.apple.videotoolbox.videoencoder.h264.gva");
    crunch; destruct (can_create c "adv_stream_aac"); crunch;
    (split; [|repeat split]).
  - now apply drop_made2.
  - now apply drop_made.
  - now apply drop_made.
  - reflexivity.
Qed.

Lemma startOutput_restores_live_objects_witness :
  encoders (core (snd (call startOutput [JsString "anything"] encoding)))
  = [(3%nat, "x264"); (4%nat, "aac")].
Proof.
  assert (F : fresh_handles encoding).
  { intros h H. simpl in H. destruct H as [<-|[<-|[]]]; simpl; lia. }
  destruct (startOutput_restores_live_objects "anything" encoding
              eq_refl eq_refl F) as [E _].
  exact E.
Defined.

(** X12: [cleanup] is idempotent.  It nulls every handle it releases, so a
    second [cleanup] makes no engine call and changes nothing. *)
Theorem cleanup_is_idempotent :
  forall (w : AsyncStartOutputWorker) (s : world),
    let r := cleanup w s in
    cleanup (fst r) (snd r) = r.
Proof.
  intros w s.
  destruct w as [[v|] [a|] [o|] [sv|] i inp p]; destruct s as [c q n t];
    reflexivity.
Qed.



(** X14: [getCodecs] joins the names without a separator, so its answer
    does not tell where one name ends: engines whose encoders are named
    [a ++ b], [c] and [a], [b ++ c] give the same answer. *)
Theorem getCodecs_loses_name_boundaries :
  forall (info : CallbackInfo) (s : world) (h1 h2 h3 h4 nh : nat)
         (a b c : string),
    initialized (core s) = true ->
    let with_names l :=
      {| core := with_encoders nh l (core s); pending := pending s;
         next_promise := next_promise s; trace := trace s |} in
    fst (obsGetCodecs info (with_names [(h1, a ++ b); (h2, c)]))
    = Return (JsString (a ++ b ++ c)) /\
    fst (obsGetCodecs info (with_names [(h3, a); (h4, b ++ c)]))
    = Return (JsString (a ++ b ++ c)).
Proof.
  intros info s h1 h2 h3 h4 nh a b c I. destruct s as [k q n t].
  simpl in I. unfold obsGetCodecs. unfold_engine. simpl. rewrite I. simpl.
  rewrite append_assoc. split; reflexivity.
Qed.

Lemma getCodecs_loses_name_boundaries_witness :
  fst (obsGetCodecs []
         {| core := with_encoders 5%nat
                      [(3%nat, "h264" ++ "_"); (4%nat, "aac")] (core warm);
            pending := []; next_promise := 1%nat; trace := [] |})
  = Return (JsString "h264_aac").
Proof.
  destruct (getCodecs_loses_name_boundaries [] warm 3%nat 4%nat 3%nat 4%nat
              5%nat "h264" "_" "aac" eq_refl) as [E _].
  exact E.
Defined.

(** * Beyond the specification: signs, white space and the answer of
      [resetVideo] *)

Section Signs.

Lemma skip_space_append ws s :
  all isspace ws = true -> skip_space (ws ++ s) = skip_space s.
Proof.
  induction ws as [|c ws IH]; simpl; [reflexivity|].
  intros H. apply andb_true_iff in H. destruct H as [Hc Hw].
  rewrite Hc. now apply IH.
Qed.

Lemma atoi_skips_space ws s :
  all isspace ws = true -> atoi (ws ++ s) = atoi s.
Proof.
  intros H. unfold atoi, strtol. now rewrite (skip_space_append ws s H).
Qed.

Lemma isspace_not_x c : isspace c = true -> Ascii.eqb c "x" = false.
Proof.
  intros H. destruct (Ascii.eqb_spec c "x"); [subst; discriminate | reflexivity].
Qed.

Lemma all_space_no_x ws : all isspace ws = true -> has "x" ws = false.
Proof.
  induction ws as [|c ws IH]; simpl; [reflexivity|].
  intros H. apply andb_true_iff in H. destruct H as [Hc Hw].
  now rewrite (isspace_not_x _ Hc), (IH Hw).
Qed.

Lemma digits_to_string n :
  0 <= n < 2 ^ 64 -> digits 0 (to_string n) = n.
Proof.
  intros H. destruct (to_string_spec n H) as [_ [_ D]].
  specialize (D 0 ""). rewrite append_nil_r in D. rewrite D. reflexivity.
Qed.

Lemma atoi_plus n : 0 <= n <= INT_MAX -> atoi (String "+" (to_string n)) = n.
Proof.
  unfold INT_MAX. intros H. unfold atoi. rewrite strtol_unfold.
  cbn [skip_space]. change (isspace "+") with false. cbv iota.
  change (Ascii.eqb "+" "-") with false.
  change (Ascii.eqb "+" "+") with true. cbv iota.
  rewrite digits_to_string by lia.
  rewrite clamp_long_small by (unfold LONG_MIN, LONG_MAX; lia).
  apply to_int_small. unfold INT_MIN, INT_MAX. lia.
Qed.

Lemma atoi_minus n :
  0 <= n <= 2 ^ 31 -> atoi (String "-" (to_string n)) = - n.
Proof.
  intros H. unfold atoi. rewrite strtol_unfold.
  cbn [skip_space]. change (isspace "-") with false. cbv iota.
  change (Ascii.eqb "-" "-") with true. cbv iota.
  rewrite digits_to_string by lia.
  rewrite clamp_long_small by (unfold LONG_MIN, LONG_MAX; lia).
  apply to_int_small. unfold INT_MIN, INT_MAX. lia.
Qed.

Lemma to_uint32_neg n : 1 <= n <= 2 ^ 31 -> to_uint32 (- n) = 2 ^ 32 - n.
Proof.
  intros H. unfold to_uint32.
  replace (- n) with ((2 ^ 32 - n) + (-1) * 2 ^ 32) by ring.
  rewrite Z.mod_add by lia. apply Z.mod_small. lia.
Qed.

Lemma append_nonempty_r a b : b <> "" -> a ++ b <> "".
Proof.
  intros H E. destruct a; simpl in E; [congruence | discriminate].
Qed.

Lemma to_string_nonempty n : 0 <= n < 2 ^ 64 -> to_string n <> "".
Proof. intros H. now destruct (to_string_spec n H). Qed.

End Signs.

(** X15: a negative number in the hint is not refused, it wraps around.
    A side ["-<n>"] with [n] from 1 to 2^31 is read by [atoi] as [-n], and
    the conversion to the unsigned 32-bit member makes it [2^32 - n]. *)
Theorem size_hint_negative_wraps :
  forall (n : Z) (a b : string),
    1 <= n <= 2 ^ 31 ->
    has "x" a = false ->
    fst (ParseSizeHint (String "-" (to_string n) ++ String "x" b))
    = 2 ^ 32 - n /\
    snd (ParseSizeHint (a ++ String "x" (String "-" (to_string n))))
    = 2 ^ 32 - n.
Proof.
  intros n a b H Ha.
  assert (X : has "x" (String "-" (to_string n)) = false).
  { cbn [has]. change (Ascii.eqb "-" "x") with false. cbn [orb].
    apply all_digit_no_x.
    destruct (to_string_spec n) as [_ [A _]]; [lia | exact A]. }
  rewrite (ParseSizeHint_split _ b X), (ParseSizeHint_split a _ Ha).
  cbn [fst snd].
  rewrite !side_nonempty by discriminate.
  rewrite atoi_minus by lia. split; apply to_uint32_neg; exact H.
Qed.

Lemma size_hint_negative_wraps_witness :
  fst (ParseSizeHint (String "-" (to_string 5) ++ String "x" "720"))
  = 2 ^ 32 - 5.
Proof.
  destruct (size_hint_negative_wraps 5 "" "720") as [W _];
    [lia | reflexivity | exact W].
Defined.

(** X16: white space before a number and a plus sign are accepted.  A
    width side made of white space, then an optional ['+'], then the
    decimal writing of a number in the range of [int], parses to that
    number. *)
Theorem size_hint_accepts_space_and_plus :
  forall (ws : string) (n : Z) (b : string),
    all isspace ws = true ->
    0 <= n <= INT_MAX ->
    fst (ParseSizeHint ((ws ++ to_string n) ++ String "x" b)) = n /\
    fst (ParseSizeHint ((ws ++ String "+" (to_string n)) ++ String "x" b))
    = n.
Proof.
  intros ws n b Hw Hn.
  assert (R : 0 <= n < 2 ^ 64) by (unfold INT_MAX in Hn; lia).
  assert (D : has "x" (to_string n) = false) by now apply to_string_no_x.
  split.
  - rewrite ParseSizeHint_split
      by (rewrite has_append, (all_space_no_x _ Hw), D; reflexivity).
    cbn [fst]. rewrite side_nonempty
      by (apply append_nonempty_r; now apply to_string_nonempty).
    rewrite (atoi_skips_space _ _ Hw).
    rewrite <- (append_nil_r (to_string n)).
    rewrite atoi_to_string by (assumption || reflexivity).
    now apply to_uint32_small.
  - rewrite ParseSizeHint_split
      by (rewrite has_append, (all_space_no_x _ Hw); cbn [has orb];
          change (Ascii.eqb "+" "x") with false; exact D).
    cbn [fst]. rewrite side_nonempty by (apply append_nonempty_r; discriminate).
    rewrite (atoi_skips_space _ _ Hw), (atoi_plus _ Hn).
    now apply to_uint32_small.
Qed.

Lemma size_hint_accepts_space_and_plus_witness :
  fst (ParseSizeHint ((" " ++ String "+" (to_string 1280))
                      ++ String "x" "720")) = 1280.
Proof.
  destruct (size_hint_accepts_space_and_plus " " 1280 "720") as [_ P];
    [reflexivity | unfold INT_MAX; lia | exact P].
Defined.

(** X17: [resetVideo] answers a plain hint with the hint itself.  For
    ["<w>x<h>"] written in decimal with both numbers in the range of
    [int], on an initialized engine with nothing else queued, the promise
    resolves with that same string. *)
Theorem resetVideo_echoes_plain_hint :
  forall (w h : Z) (s : world),
    0 <= w <= INT_MAX -> 0 <= h <= INT_MAX ->
    initialized (core s) = true ->
    pending s = [] ->
    let hint := to_string w ++ String "x" (to_string h) in
    In (Resolve (next_promise s) (JsString hint))
       (trace (snd (call resetVideo [JsString hint] s))).
Proof.
  intros w h s Hw Hh I Q hint.
  assert (P : ParseSizeHint hint = (w, h)).
  { unfold hint. rewrite ParseSizeHint_split by now apply to_string_no_x.
    rewrite <- (append_nil_r (to_string w)), <- (append_nil_r (to_string h)).
    now rewrite !side_to_string. }
  unfold ParseSizeHint in P.
  destruct s as [c q n t]. simpl in I, Q. subst q.
  crunch. rewrite I. crunch.
  destruct (parse_size hint) as [[width height] input].
  injection P as Pw Ph. crunch. rewrite Pw, Ph.
  rewrite !in_app_iff. right. simpl. left. reflexivity.
Qed.

Lemma resetVideo_echoes_plain_hint_witness :
  In (Resolve (next_promise warm)
        (JsString (to_string 1920 ++ String "x" (to_string 1080))))
     (trace (snd (call resetVideo
                    [JsString (to_string 1920 ++ String "x" (to_string 1080))]
                    warm))).
Proof.
  apply (resetVideo_echoes_plain_hint 1920 1080 warm);
    try (unfold INT_MAX; lia); reflexivity.
Defined.
